(** * Bulk user-info lookup of the Twitter service (hatch/services.py)

    A shallow embedding of [TwitterService.get_users_info] and of the
    helpers it calls ([get_user_cache_key], [get_user_id]), followed by
    the properties of the bulk lookup: cache consultation, batching of
    the remote calls, reconciliation of the persisted [sm_not_found]
    flag, and the error paths.

    Conventions of the embedding.
    - Python dictionaries are finite maps ([gmap]); [d.keys()] and
      [d.items()] enumerate a dictionary in one fixed order
      ([map_to_list]), as a Python 2 dictionary does between two
      modifications.
    - A Python method that reads or writes the cache, the database or the
      remote API is a computation in the monad [M]: it threads the
      [world], may raise an exception, and emits the [event]s it performs.
    - [on_behalf_of] is left at its default ([None], the app account), so
      [get_api] is the app-level client and cannot fail. *)

From Stdlib Require Import Ascii.
From stdpp Require Import gmap strings list fin_maps pretty.

(** String literals are read as strings; [++] stays list concatenation,
    [+:+] is string concatenation and the order relations are those of
    [nat]. *)
Open Scope string_scope.
Open Scope list_scope.
Open Scope nat_scope.
Open Scope stdpp_scope.

(** ** Data model *)

(** A profile mapping returned by [users/lookup]. Only the fields the
    service reads are kept: ['id'], ['id_str'], ['name'], ['description']
    and ['profile_image_url']. *)
Record info := Info {
  info_id : Z;
  info_id_str : string;
  info_name : string;
  info_description : string;
  info_profile_image_url : string
}.

#[global] Instance info_eq_dec : EqDecision info.
Proof. solve_decision. Defined.

(** A row of the [User] table: primary key, username and the persisted
    [sm_not_found] flag. A [User] object handed to the service is such a
    row. *)
Record user := User {
  pk : Z;
  username : string;
  sm_not_found : bool
}.

#[global] Instance user_eq_dec : EqDecision user.
Proof. solve_decision. Defined.

(** A row of the social-auth table ([user.social_auth]). *)
Record social_auth := SocialAuth {
  sa_user : Z;
  sa_provider : string;
  sa_uid : string
}.

#[global] Instance social_auth_eq_dec : EqDecision social_auth.
Proof. solve_decision. Defined.

(** The exceptions that can travel through [get_users_info]. *)
Inductive exn :=
| SocialMediaException (msg : string)
| TwitterHTTPError
| KeyError (key : string)
| UnboundLocalError (name : string).

Inductive outcome (A : Type) :=
| Return (a : A)
| Raise (e : exn).
Arguments Return {A} a.
Arguments Raise {A} e.

(** What the service does to the outside world, in program order. *)
Inductive event :=
| CacheGet (key : string)
| CacheGetMany (keys : list string)
| CacheSet (key value : string) (timeout : Z)
| CacheSetMany (entries : gmap string info)
| UsersLookup (id_group : list string)
| DbUpdate (uids : gset string) (flag : bool)
| LogInfo (msg : string)
| LogWarning (msg : string).

(** Modelled from the spec: [hatch/utils.py] ([chunk]) is not part of the
    reviewed sources. The spec has the IDs batched "into fixed-size
    groups (100 per group)", one lookup call per group: [chunk l n] cuts
    [l] into consecutive groups of [n] elements, the last one holding the
    remainder. *)
Fixpoint chunk_fuel {A : Type} (fuel : nat) (l : list A) (n : nat)
  : list (list A) :=
  match fuel with
  | O => []
  | S fuel' =>
      match l with
      | [] => []
      | _ :: _ => take n l :: chunk_fuel fuel' (drop n l) n
      end
  end.

Definition chunk {A : Type} (l : list A) (n : nat) : list (list A) :=
  chunk_fuel (length l) l n.

(** ** The world the service runs in *)

(** Modelled from the spec: [hatch/cache.py] ([cache_buffer]) and
    [hatch/models.py] ([User]) are not part of the reviewed sources. The
    cache offers [get], [get_many], [set] and [set_many]; entries do not
    expire during a call. The values under the [:info] keys are profile
    mappings and those under the [:social-id] keys are remote IDs; the two
    key families are disjoint ([info_key_ne_social_id_key] below), so the
    store is kept as two finite maps. Persistence is the [User] table and
    the social-auth table it is joined with.

    The remote API is an oracle: the answer to the [n]-th lookup call of
    the run may depend on [n] and on the request (the comma-joined IDs);
    it is a sequence of profile mappings, or [None] when the call fails
    with the transport error. *)
Record world := World {
  cache_info : gmap string info;
  cache_social_id : gmap string string;
  users_table : list user;
  social_auth_table : list social_auth;
  twitter_api : nat → string → option (list info);
  twitter_calls : nat
}.

Definition with_cache_info (c : gmap string info) (w : world) : world :=
  World c (cache_social_id w) (users_table w) (social_auth_table w)
    (twitter_api w) (twitter_calls w).

Definition with_cache_social_id (c : gmap string string) (w : world) : world :=
  World (cache_info w) c (users_table w) (social_auth_table w)
    (twitter_api w) (twitter_calls w).

Definition with_users_table (t : list user) (w : world) : world :=
  World (cache_info w) (cache_social_id w) t (social_auth_table w)
    (twitter_api w) (twitter_calls w).

Definition with_twitter_calls (n : nat) (w : world) : world :=
  World (cache_info w) (cache_social_id w) (users_table w)
    (social_auth_table w) (twitter_api w) n.

(** ** The monad: state, exceptions and emitted events *)

Definition M (A : Type) : Type := world → outcome A * world * list event.

Definition ret {A} (a : A) : M A := λ w, (Return a, w, []).

Definition bind {A B} (m : M A) (f : A → M B) : M B := λ w,
  match m w with
  | (Return a, w1, e1) =>
      match f a w1 with
      | (r, w2, e2) => (r, w2, e1 ++ e2)
      end
  | (Raise x, w1, e1) => (Raise x, w1, e1)
  end.

Definition raise {A} (x : exn) : M A := λ w, (Raise x, w, []).

(** [try: m  except ...: k], where [h] selects the handled exceptions. *)
Definition try_except {A} (m : M A) (h : exn → option (M A)) : M A := λ w,
  match m w with
  | (Return a, w1, e1) => (Return a, w1, e1)
  | (Raise x, w1, e1) =>
      match h x with
      | Some k => match k w1 with (r, w2, e2) => (r, w2, e1 ++ e2) end
      | None => (Raise x, w1, e1)
      end
  end.

Definition emit (e : event) : M unit := λ w, (Return tt, w, [e]).
Definition get_world : M world := λ w, (Return w, w, []).
Definition put_world (w' : world) : M unit := λ _, (Return tt, w', []).

Notation "'let*' x ':=' m 'in' k" := (bind m (λ x, k))
  (at level 10, x name, m at level 100, k at level 200).
Notation "m '>>' k" := (bind m (λ _, k))
  (at level 100, k at level 200, right associativity).

(** [for x in l: body], threading the loop-carried variables [s]. *)
Fixpoint for_each {A S} (body : A → S → M S) (l : list A) (s : S) : M S :=
  match l with
  | [] => ret s
  | x :: l' => let* s' := body x s in for_each body l' s'
  end.

(** [[f(x) for x in l]] *)
Fixpoint list_comp {A B} (f : A → M B) (l : list A) : M (list B) :=
  match l with
  | [] => ret []
  | x :: l' => let* y := f x in let* ys := list_comp f l' in ret (y :: ys)
  end.

(** [d[k]] *)
Definition getitem {V} (d : gmap string V) (k : string) : M V :=
  match d !! k with
  | Some v => ret v
  | None => raise (KeyError k)
  end.

(** ** Cache, remote API, database and log *)

Definition cache_get (key : string) : M (option string) :=
  emit (CacheGet key) >>
  let* w := get_world in
  ret (cache_social_id w !! key).

Definition cache_set (key value : string) (timeout : Z) : M unit :=
  emit (CacheSet key value timeout) >>
  let* w := get_world in
  put_world (with_cache_social_id (<[key := value]> (cache_social_id w)) w).

(** [cache.get_many(keys)]: the entries of the cache under [keys]. *)
Definition get_many_of (c : gmap string info) (keys : list string)
  : gmap string info :=
  foldr (λ k acc, match c !! k with
                  | Some v => <[k := v]> acc
                  | None => acc
                  end) ∅ keys.

Definition cache_get_many (keys : list string) : M (gmap string info) :=
  emit (CacheGetMany keys) >>
  let* w := get_world in
  ret (get_many_of (cache_info w) keys).

Definition cache_set_many (entries : gmap string info) : M unit :=
  emit (CacheSetMany entries) >>
  let* w := get_world in
  put_world (with_cache_info (entries ∪ cache_info w) w).

(** [t.users.lookup(user_id=','.join(id_group))] *)
Definition users_lookup (id_group : list string) : M (list info) := λ w,
  let w' := with_twitter_calls (S (twitter_calls w)) w in
  match twitter_api w (twitter_calls w) (String.concat "," id_group) with
  | Some bulk_info => (Return bulk_info, w', [UsersLookup id_group])
  | None => (Raise TwitterHTTPError, w', [UsersLookup id_group])
  end.

(** [user.social_auth.all()] *)
Definition social_auth_all (w : world) (u : user) : list social_auth :=
  filter (λ sa, sa_user sa = pk u) (social_auth_table w).

(** [User.objects.filter(social_auth__uid__in=uids)]: the rows joined with
    a social-auth row whose uid is in [uids]. *)
Definition uid_in (sas : list social_auth) (uids : gset string) (u : user)
  : bool :=
  existsb (λ sa, bool_decide (sa_user sa = pk u)
                 && bool_decide (sa_uid sa ∈ uids)) sas.

(** [.update(sm_not_found=flag)] on the rows selected by [uids]. *)
Definition set_sm_not_found (sas : list social_auth) (uids : gset string)
    (flag : bool) (table : list user) : list user :=
  map (λ u, if uid_in sas uids u then User (pk u) (username u) flag else u)
      table.

(** [User.objects.filter(social_auth__uid__in=uids).update(sm_not_found=flag)] *)
Definition update_sm_not_found (uids : gset string) (flag : bool) : M unit :=
  emit (DbUpdate uids flag) >>
  let* w := get_world in
  put_world (with_users_table
               (set_sm_not_found (social_auth_table w) uids flag
                  (users_table w)) w).

Definition log_info (msg : string) : M unit := emit (LogInfo msg).
Definition log_warning (msg : string) : M unit := emit (LogWarning msg).

(** ** String formatting *)

Definition nl : string := String "010"%char "".

Definition rule : string :=
  "============================================================".

(** [repr] of a string (quotes inside it are not escaped). *)
Definition repr (s : string) : string := "'" +:+ s +:+ "'".

(** [str(user)]: the username. *)
Definition str_user (u : user) : string := username u.

(** The two log messages of the fetch block. *)
Definition msg_hitting (n : nat) (ids : list string) : string :=
  nl +:+ rule +:+ nl +:+
  "Hitting the API for the app to get info on " +:+
  pretty n +:+ " user(s)" +:+ nl +:+
  "IDs: " +:+ String.concat "," ids +:+ nl +:+
  rule +:+ nl.

Definition msg_inaccessible (user_strings : list string) : string :=
  nl +:+ rule +:+ nl +:+
  "The following user(s) are inaccessible from the Twitter API:" +:+ nl +:+
  "(i.e., they are protected, suspended, or gone)" +:+ nl +:+
  "IDs: " +:+ String.concat "," user_strings +:+ nl +:+
  rule +:+ nl.

(** ** The service *)

Definition get_user_cache_key_prefix (u : user) : string :=
  "user-" +:+ pretty (pk u).

Definition get_user_cache_key (u : user) (extra : string) : string :=
  String.concat ":" [get_user_cache_key_prefix u; extra].

Definition msg_not_authenticated (u : user) : string :=
  "User " +:+ str_user u +:+
  " is not authenticated with a social media account".

Definition msg_wrong_provider (u : user) (provider : string) : string :=
  "Can't get info for user " +:+ str_user u +:+
  " authenticated with a " +:+ repr provider +:+ " provider".

Definition get_user_id (u : user) : M string :=
  let cache_key := get_user_cache_key u "social-id" in
  let* social_id := cache_get cache_key in
  match social_id with
  | Some social_id => ret social_id
  | None =>
      let* w := get_world in
      match social_auth_all w u with
      | [] => raise (SocialMediaException (msg_not_authenticated u))
      | social_auth :: _ =>
          if decide (sa_provider social_auth = "twitter") then
            let social_id := sa_uid social_auth in
            cache_set cache_key social_id 60 >>
            ret social_id
          else
            raise (SocialMediaException
                     (msg_wrong_provider u (sa_provider social_auth)))
      end
  end.

(** The body of the first loop: one user, with its [try ... except
    SocialMediaException]. *)
Definition add_user (u : user) (data : gmap string string)
  : M (gmap string string) :=
  try_except
    (let cache_key := get_user_cache_key u "info" in
     let* user_id := get_user_id u in
     ret (<[cache_key := user_id]> data))
    (λ e, match e with
          | SocialMediaException msg => Some (log_warning msg >> ret data)
          | _ => None
          end).

(** [dict([(user_id, cache_key) for cache_key, user_id in data.items()])]:
    a later pair replaces an earlier one with the same [user_id]. *)
Definition reverse_of (data : gmap string string) : gmap string string :=
  foldl (λ acc kv, <[kv.2 := kv.1]> acc) ∅ (map_to_list data).

(** The loop-carried variables of the lookup loop. [seen_ids] is bound by
    the first iteration only. *)
Record lookup_vars := LookupVars {
  new_info : gmap string info;
  questionable_ids : list string;
  seen_ids : option (gset string)
}.

(** The body of [for info in bulk_info]. *)
Definition store_info (reverse_data : gmap string string) (i : info)
    (new_info : gmap string info) : M (gmap string info) :=
  let* cache_key := getitem reverse_data (pretty (info_id i)) in
  ret (<[cache_key := i]> new_info).

(** The body of the lookup loop: one group of IDs. *)
Definition lookup_group (reverse_data : gmap string string)
    (id_group : list string) (v : lookup_vars) : M lookup_vars :=
  let* bulk_info :=
    try_except (users_lookup id_group)
      (λ e, match e with
            | TwitterHTTPError => Some (ret [])
            | _ => None
            end) in
  let* new_info' := for_each (store_info reverse_data) bulk_info (new_info v) in
  let seen : gset string := list_to_set (info_id_str <$> bulk_info) in
  ret (LookupVars new_info'
         (questionable_ids v ++ filter (λ user_id, user_id ∉ seen) id_group)
         (Some seen)).

(** The body of [if uncached_keys:]: fetch the uncached users in chunks of
    100, store what came back and reconcile the found status. It returns
    the completed [all_info]. *)
Definition fetch_uncached (data reverse_data : gmap string string)
    (all_info : gmap string info) (uncached_keys : list string)
  : M (gmap string info) :=
  let* ids := list_comp (getitem data) uncached_keys in
  log_info (msg_hitting (length uncached_keys) ids) >>
  let* user_ids := list_comp (getitem data) uncached_keys in
  let* v := for_each (lookup_group reverse_data) (chunk user_ids 100)
              (LookupVars ∅ [] None) in
  (match questionable_ids v with
   | [] => ret tt
   | _ :: _ =>
       let* user_strings :=
         list_comp (λ user_id,
                      let* cache_key := getitem reverse_data user_id in
                      getitem data cache_key)
                   (questionable_ids v) in
       log_warning (msg_inaccessible user_strings)
   end) >>
  cache_set_many (new_info v) >>
  let all_info := new_info v ∪ all_info in
  let* seen :=
    (match seen_ids v with
     | Some s => ret s
     | None => raise (UnboundLocalError "seen_ids")
     end) in
  update_sm_not_found seen false >>
  update_sm_not_found (list_to_set (questionable_ids v)) true >>
  ret all_info.

Definition get_users_info_dict (users : list user) (force_refresh : bool)
  : M (gmap string info) :=
  let* data := for_each add_user users ∅ in
  let reverse_data := reverse_of data in
  let keys := (map_to_list data).*1 in
  let* all_info :=
    (if negb force_refresh || bool_decide (6000 < Z.of_nat (size data))%Z
     then cache_get_many keys
     else ret ∅) in
  let uncached_keys := filter (λ key, key ∉ dom all_info) keys in
  match uncached_keys with
  | [] => ret all_info
  | _ :: _ => fetch_uncached data reverse_data all_info uncached_keys
  end.

(** [all_info.values()] *)
Definition get_users_info (users : list user) (force_refresh : bool)
  : M (list info) :=
  let* all_info := get_users_info_dict users force_refresh in
  ret ((map_to_list all_info).*2).

(** ** Observations on a run *)

Definition result_of {A} (r : outcome A * world * list event) : outcome A :=
  r.1.1.
Definition world_of {A} (r : outcome A * world * list event) : world :=
  r.1.2.
Definition events_of {A} (r : outcome A * world * list event) : list event :=
  r.2.

(** The remote lookup calls of a trace, each with its group of IDs. *)
Definition lookups (ev : list event) : list (list string) :=
  omap (λ e, match e with UsersLookup g => Some g | _ => None end) ev.

(** The batched cache reads and writes, the single cache writes and the
    database updates of a trace. *)
Definition get_manys (ev : list event) : list (list string) :=
  omap (λ e, match e with CacheGetMany ks => Some ks | _ => None end) ev.
Definition set_manys (ev : list event) : list (gmap string info) :=
  omap (λ e, match e with CacheSetMany m => Some m | _ => None end) ev.
Definition cache_sets (ev : list event) : list (string * string) :=
  omap (λ e, match e with CacheSet k v _ => Some (k, v) | _ => None end) ev.
Definition db_updates (ev : list event) : list (gset string * bool) :=
  omap (λ e, match e with DbUpdate s b => Some (s, b) | _ => None end) ev.

(** The remote ID [get_user_id] derives for a user, if it derives one. *)
Definition remote_id (w : world) (u : user) : option string :=
  match result_of (get_user_id u w) with
  | Return social_id => Some social_id
  | Raise _ => None
  end.

(** The [data] dictionary (cache key to remote ID) that the first loop of
    [get_users_info] builds. *)
Definition data_of (users : list user) (w : world) : gmap string string :=
  match result_of (for_each add_user users ∅ w) with
  | Return data => data
  | Raise _ => ∅
  end.

(** Whether the call reads the cache: [not force_refresh or len(data) > 6000]. *)
Definition consults_cache (users : list user) (force_refresh : bool)
    (w : world) : bool :=
  negb force_refresh || bool_decide (6000 < Z.of_nat (size (data_of users w)))%Z.

(** The cached entries of the requested users, as the call sees them. *)
Definition cache_hits (users : list user) (force_refresh : bool) (w : world)
  : gmap string info :=
  if consults_cache users force_refresh w
  then filter (λ kv, kv.1 ∈ dom (data_of users w)) (cache_info w)
  else ∅.

(** The cache misses, in the order of [data.items()], and their remote
    IDs. *)
Definition misses (users : list user) (force_refresh : bool) (w : world)
  : list (string * string) :=
  filter (λ kv, kv.1 ∉ dom (cache_hits users force_refresh w))
         (map_to_list (data_of users w)).

Definition missed_ids (users : list user) (force_refresh : bool) (w : world)
  : list string :=
  (misses users force_refresh w).*2.

(** The answer to the [i]-th lookup of a call started in [w], for the
    group [g]; a failed call counts as an empty answer. *)
Definition bulk_of (w : world) (i : nat) (g : list string) : list info :=
  default [] (twitter_api w (twitter_calls w + i) (String.concat "," g)).

(** All profiles the remote returns for a list of groups. *)
Definition fetched_from (w : world) (groups : list (list string))
  : list info :=
  mjoin (imap (bulk_of w) groups).

(** The profiles newly fetched by a call. *)
Definition fetched (users : list user) (force_refresh : bool) (w : world)
  : list info :=
  fetched_from w (chunk (missed_ids users force_refresh w) 100).


(** What one round of the first loop does to [data]. *)
Definition add_entry (w : world) (u : user) (data : gmap string string)
  : gmap string string :=
  match remote_id w u with
  | Some user_id => <[get_user_cache_key u "info" := user_id]> data
  | None => data
  end.

(** [new_info[reverse_data[str(info['id'])]] = info], when the key exists. *)
Definition store (reverse_data : gmap string string)
    (acc : gmap string info) (i : info) : gmap string info :=
  match reverse_data !! pretty (info_id i) with
  | Some cache_key => <[cache_key := i]> acc
  | None => acc
  end.

(** The miss-resolution mapping of a call: every returned profile written
    under the cache key its ID is the remote ID of, in the order of
    arrival. *)
Definition newly_fetched (users : list user) (force_refresh : bool)
    (w : world) : gmap string info :=
  foldl (store (reverse_of (data_of users w))) ∅ (fetched users force_refresh w).

(** [set([info['id_str'] for info in bulk_info])] *)
Definition seen_in (bulk_info : list info) : gset string :=
  list_to_set (info_id_str <$> bulk_info).

(** The requested IDs that the answers to their groups do not show. *)
Definition questionable_from (w : world) (groups : list (list string))
  : list string :=
  mjoin (imap (λ i g, filter (λ user_id, user_id ∉ seen_in (bulk_of w i g)) g)
              groups).

(** [seen_ids] after the lookup loop: the IDs seen in the last group. *)
Definition last_seen_from (w : world) (groups : list (list string))
  : option (gset string) :=
  last (imap (λ i g, seen_in (bulk_of w i g)) groups).

(** A trace without remote calls, batched cache accesses and database
    updates. *)
Definition quiet (ev : list event) : Prop :=
  lookups ev = [] ∧ get_manys ev = [] ∧ set_manys ev = [] ∧ db_updates ev = [].

(** The last character of a string. *)
Fixpoint last_char (s : string) : option ascii :=
  match s with
  | EmptyString => None
  | String c s' => match s' with EmptyString => Some c | _ => last_char s' end
  end.

(** A run preceded by the events [e1]. *)
Definition prepend {A} (e1 : list event) (r : outcome A * world * list event)
  : outcome A * world * list event :=
  (r.1.1, r.1.2, e1 ++ r.2).

(** The warning emitted for the questionable IDs, if there are any. *)
Definition inaccessible_log (q : list string) : list event :=
  match q with
  | [] => []
  | _ :: _ => [LogWarning (msg_inaccessible q)]
  end.

(** The world once one more lookup call has been made. *)
Definition next_call (w : world) : world :=
  with_twitter_calls (S (twitter_calls w)) w.

(** A returned profile whose ID is one of the requested remote IDs. *)
Definition known (reverse_data : gmap string string) (i : info) : Prop :=
  is_Some (reverse_data !! pretty (info_id i)).

(** The batched cache read of a call, if it makes one. *)
Definition cache_read (users : list user) (force_refresh : bool) (w : world)
  : list event :=
  if consults_cache users force_refresh w
  then [CacheGetMany (map_to_list (data_of users w)).*1]
  else [].

(** Every requested user with a remote ID has its [:info] key in the
    cache. *)
Definition all_cached (users : list user) (w : world) : Prop :=
  Forall (λ u, is_Some (remote_id w u) →
               is_Some (cache_info w !! get_user_cache_key u "info")) users.

(** ** Sample worlds *)

(** [req.split(',')] *)
Fixpoint split_commas_go (s cur : string) : list string :=
  match s with
  | EmptyString => [String.rev cur]
  | String c s' =>
      if Ascii.eqb c ","%char
      then String.rev cur :: split_commas_go s' ""
      else split_commas_go s' (String c cur)
  end.

Definition split_commas (s : string) : list string := split_commas_go s "".

(** A remote that knows the profiles [dir] and answers a lookup with those
    whose ID is requested. *)
Definition directory (dir : list info) : nat → string → option (list info) :=
  λ _ req, Some (filter (λ i, info_id_str i ∈ split_commas req) dir).

(** A remote whose every call fails with the transport error. *)
Definition unreachable : nat → string → option (list info) := λ _ _, None.

Definition sample_uid (n : nat) : Z := 1000 + Z.of_nat n.

Definition sample_profile (n : nat) : info :=
  Info (sample_uid n) (pretty (sample_uid n)) "name" "bio" "http://img".

Definition sample_user (flag : bool) (n : nat) : user :=
  User (Z.of_nat n) ("user" +:+ pretty n) flag.

Definition sample_auth (n : nat) : social_auth :=
  SocialAuth (Z.of_nat n) "twitter" (pretty (sample_uid n)).

(** [n] users linked to Twitter, all with [sm_not_found = flag], nothing
    cached, every profile known to the remote. *)
Definition sample_world (flag : bool) (n : nat) : world :=
  World ∅ ∅ (sample_user flag <$> seq 1 n) (sample_auth <$> seq 1 n)
    (directory (sample_profile <$> seq 1 n)) 0.

(** The sample world with the profile of its first user already cached. *)
Definition first_cached (w : world) : world :=
  with_cache_info
    {[get_user_cache_key (sample_user false 1) "info" := sample_profile 1]} w.

(** The sample world cut off from the remote API. *)
Definition cut_off (w : world) : world :=
  World (cache_info w) (cache_social_id w) (users_table w)
    (social_auth_table w) unreachable (twitter_calls w).

(** More users than the cap, with their remote IDs in the cache. *)
Definition many : nat := Z.to_nat 6001.

Definition many_users : list user := sample_user false <$> seq 1 many.

Definition many_world : world :=
  World ∅
    (list_to_map ((λ u, (get_user_cache_key u "social-id", pretty (pk u)))
                  <$> many_users))
    [] [] unreachable 0.

(** ** Single-user lookup (get_user_info and its accessors) *)

(** The trace vocabulary is that of the bulk lookup. The calls below that
    have no entry in it ([users.show], the single cache write of a profile
    and [user.save]) show in the result and in the world only. The answer
    of [users.show] is a parameter, [users_show]: the profile for the
    requested ID, or [None] when the call fails with the transport
    error. *)

(** [cache.get(cache_key)] on an [:info] key *)
Definition cache_get_info (key : string) : M (option info) :=
  emit (CacheGet key) >>
  let* w := get_world in
  ret (cache_info w !! key).

(** [cache.set(cache_key, info)] *)
Definition cache_set_info (key : string) (i : info) : M unit :=
  let* w := get_world in
  put_world (with_cache_info (<[key := i]> (cache_info w)) w).

(** [user.sm_not_found = flag; user.save(update_fields=['sm_not_found'])]:
    the row of the user gets the flag (the user is a row of the table). *)
Definition mark_user (u : user) (flag : bool) (table : list user) : list user :=
  map (λ r, if decide (pk r = pk u) then User (pk r) (username r) flag else r)
      table.

Definition save_sm_not_found (u : user) (flag : bool) : M unit :=
  let* w := get_world in
  put_world (with_users_table (mark_user u flag (users_table w)) w).

(** [t.users.show(user_id=user_id)] *)
Definition users_show_call (users_show : string → option info)
    (user_id : string) : M info :=
  match users_show user_id with
  | Some i => ret i
  | None => raise TwitterHTTPError
  end.

Definition msg_hitting_one (u : user) (user_id : string) : string :=
  nl +:+ rule +:+ nl +:+
  "Hitting the API for the app to get info on " +:+
  username u +:+ " (" +:+ user_id +:+ ")" +:+ nl +:+
  rule +:+ nl.

Definition msg_not_found (u : user) (user_id : string) : string :=
  "User " +:+ username u +:+ " (" +:+ user_id +:+ ") not found on Twitter".

Definition get_user_info (users_show : string → option info) (u : user)
  : M info :=
  let cache_key := get_user_cache_key u "info" in
  let* info := cache_get_info cache_key in
  match info with
  | Some info => ret info
  | None =>
      let* user_id := get_user_id u in
      log_info (msg_hitting_one u user_id) >>
      let* info :=
        try_except (users_show_call users_show user_id)
          (λ e, match e with
                | TwitterHTTPError =>
                    Some (save_sm_not_found u true >>
                          raise (SocialMediaException (msg_not_found u user_id)))
                | _ => None
                end) in
      cache_set_info cache_key info >>
      ret info
  end.

Definition get_full_name (users_show : string → option info) (u : user)
  : M string :=
  let* user_info := get_user_info users_show u in
  ret (info_name user_info).

Definition get_bio (users_show : string → option info) (u : user)
  : M string :=
  let* user_info := get_user_info users_show u in
  ret (info_description user_info).

(** ** The avatar URL (get_avatar_url) *)

Definition url_pattern : string :=
  "^(?P<path>.*?)(?:_normal|_mini|_bigger|)(?P<ext>\.[^\.]*)$".

(** The group [ext] of [url_pattern] is a dot followed by characters other
    than the dot, up to the end of the string. *)
Fixpoint no_dot (s : string) : bool :=
  match s with
  | EmptyString => true
  | String c s' => negb (Ascii.eqb c "."%char) && no_dot s'
  end.

Definition is_ext (s : string) : bool :=
  match s with
  | String c s' => Ascii.eqb c "."%char && no_dot s'
  | EmptyString => false
  end.

(** [s] without the prefix [p], if it starts with [p]. *)
Fixpoint strip_prefix (p s : string) : option string :=
  match p with
  | EmptyString => Some s
  | String c p' =>
      match s with
      | String d s' => if Ascii.eqb c d then strip_prefix p' s' else None
      | EmptyString => None
      end
  end.

(** The alternatives of the size suffix, in the order of the pattern. *)
Definition size_suffixes : list string := ["_normal"; "_mini"; "_bigger"; ""].

(** The rest of the match once [path] is fixed: the first alternative
    after which [ext] matches. *)
Fixpoint match_suffix (alts : list string) (rest : string) : option string :=
  match alts with
  | [] => None
  | alt :: alts' =>
      match strip_prefix alt rest with
      | Some ext => if is_ext ext then Some ext else match_suffix alts' rest
      | None => match_suffix alts' rest
      end
  end.

(** [re.match(url_pattern, url)]: the lazy [path] is tried from the
    shortest one on; it cannot run over a newline. The result is the pair
    of the groups [path] and [ext]. *)
Fixpoint avatar_match (url : string) : option (string * string) :=
  match match_suffix size_suffixes url with
  | Some ext => Some ("", ext)
  | None =>
      match url with
      | EmptyString => None
      | String c url' =>
          if Ascii.eqb c "010"%char then None
          else match avatar_match url' with
               | Some (path, ext) => Some (String c path, ext)
               | None => None
               end
      end
  end.

Definition bigger_url (url : string) : string :=
  match avatar_match url with
  | Some (path, ext) => path +:+ "_bigger" +:+ ext
  | None => url
  end.

Definition get_avatar_url (users_show : string → option info) (u : user)
  : M string :=
  let* user_info := get_user_info users_show u in
  ret (bigger_url (info_profile_image_url user_info)).

(** ** The admin (hatch/admin.py) *)

(** The levels of [django.contrib.messages] the admin uses; [INFO] is the
    default of [message_user]. *)
Inductive level := INFO | WARNING | ERROR.

(** [UserAdmin.found_on_twitter] *)
Definition found_on_twitter (obj : user) : bool := negb (sm_not_found obj).

(** A row of the [Tweet] table, with the relations the filters look at:
    the visions made from the tweet by its author or by the app, the
    reply made from it, and the tweet it replies to. *)
Record tweet := Tweet {
  tweet_pk : Z;
  user_tweeted_vision : option Z;
  app_tweeted_vision : option Z;
  tweet_reply : option Z;
  in_reply_to_id : option Z
}.

(** [field__isnull=b] *)
Definition isnull {A} (field : option A) (b : bool) : bool :=
  match field with
  | None => b
  | Some _ => negb b
  end.

Module TweetAssignmentFilter.

(** [queryset]; [None] (no [return] taken) leaves the list unfiltered. *)
Definition queryset (val : option string) (qs : list tweet)
  : option (list tweet) :=
  if decide (val = Some "visions") then
    Some (filter (λ t, isnull (user_tweeted_vision t) false
                       || isnull (app_tweeted_vision t) false = true) qs)
  else if decide (val = Some "replies") then
    Some (filter (λ t, isnull (tweet_reply t) false = true) qs)
  else if decide (val = Some "null") then
    Some (filter (λ t, isnull (user_tweeted_vision t) true
                       && isnull (app_tweeted_vision t) true
                       && isnull (tweet_reply t) true = true) qs)
  else None.

End TweetAssignmentFilter.

Module KnownReplyFilter.

Definition queryset (val : option string) (qs : list tweet)
  : option (list tweet) :=
  if decide (val = Some "yes") then
    Some (filter (λ t, isnull (in_reply_to_id t) false = true) qs)
  else if decide (val = Some "no") then
    Some (filter (λ t, isnull (in_reply_to_id t) true = true) qs)
  else None.

End KnownReplyFilter.

Module TweetAdmin.

(** [tweet.in_reply_to_id is not None] *)
Definition is_a_reply (t : tweet) : bool :=
  match in_reply_to_id t with
  | Some _ => true
  | None => false
  end.

(** What [make_replies] reports: all the tweets converted at once, or
    the counts of the one-by-one pass. *)
Inductive report :=
| Converted (count : nat)
| Partly (successes failures : nat).

Definition message (r : report) : level * string :=
  match r with
  | Converted count =>
      (INFO, "Successfully converted " +:+ pretty count +:+
             " tweets to replies.")
  | Partly successes failures =>
      (WARNING, "Successfully converted " +:+ pretty successes +:+
                " tweet(s) to replies. " +:+ pretty failures +:+
                " tweet(s) are not yet replies to visions. Assign tweets" +:+
                " to be replies before proceeding.")
  end.

Section make_replies.

(** The database is any state [S]. [tweet_qs.make_replies()] and
    [tweet.make_reply()] are not part of the reviewed sources: each is
    given as a step on the database that tells whether it completed
    ([true]) or raised [ValueError] ([false]). *)
Context {S : Type}.
Variable bulk_make_replies : list tweet → S → bool * S.
Variable make_reply : tweet → S → bool * S.

(** The one-by-one pass, with its two counters. *)
Fixpoint make_reply_each (tweets : list tweet) (successes failures : nat)
    (db : S) : nat * nat * S :=
  match tweets with
  | [] => (successes, failures, db)
  | t :: tweets' =>
      match make_reply t db with
      | (true, db') => make_reply_each tweets' (successes + 1) failures db'
      | (false, db') => make_reply_each tweets' successes (failures + 1) db'
      end
  end.

Definition make_replies (tweet_qs : list tweet) (db : S) : report * S :=
  match bulk_make_replies tweet_qs db with
  | (true, db') => (Converted (length tweet_qs), db')
  | (false, db') =>
      match make_reply_each tweet_qs 0 0 db' with
      | (successes, failures, db'') => (Partly successes failures, db'')
      end
  end.

End make_replies.

End TweetAdmin.

(** A row of the [Category] table. *)
Record category := Category {
  cat_name : string;
  cat_title : string;
  cat_active : bool
}.

Module CategoryAdmin.

(** [str.lower()] on ASCII text. *)
Definition lower_char (c : ascii) : ascii :=
  let n := nat_of_ascii c in
  if (65 <=? n) && (n <=? 90) then ascii_of_nat (n + 32) else c.

Fixpoint lower (s : string) : string :=
  match s with
  | EmptyString => EmptyString
  | String c s' => String (lower_char c) (lower s')
  end.

(** [get_queryset]: the queryset it returns (the base queryset) and the
    message it shows, if any. *)
Definition get_queryset (method : string) (qs : list category)
  : list category * option (level * string) :=
  if negb (String.eqb (lower method) "get") then (qs, None)
  else
    let total_count := length qs in
    let active_count := length (filter (λ c, cat_active c = true) qs) in
    if total_count =? 0 then
      (qs, Some (ERROR, "You must have at least one category!"))
    else if active_count =? 0 then
      (qs, Some (ERROR,
                 "There are no active categories selected! You must " +:+
                 "select an active category."))
    else if 1 <? active_count then
      (qs, Some (WARNING,
                 "You have more than one category selected as active. " +:+
                 "One of the categories will be arbitrarily chosen by " +:+
                 "the app as active. To remove ambiguity, you should " +:+
                 "always choose EXACTLY ONE category to be active at " +:+
                 "a time."))
    else (qs, None).

End CategoryAdmin.

(** ** Auxiliary notions for the properties *)

(** A string without a colon, as the decimal rendering of a key is. *)
Fixpoint no_colon (s : string) : bool :=
  match s with
  | EmptyString => true
  | String c s' => negb (Ascii.eqb c ":"%char) && no_colon s'
  end.

(** The world [w] in front of another remote. *)
Definition with_twitter_api (api : nat → string → option (list info))
    (w : world) : world :=
  World (cache_info w) (cache_social_id w) (users_table w)
    (social_auth_table w) api (twitter_calls w).

(** A remote that answers every lookup with the same profiles. *)
Definition answering (l : list info) : nat → string → option (list info) :=
  λ _ _, Some l.

(** The identity of the rows of the [User] table. *)
Definition row_ids (table : list user) : list (Z * string) :=
  (λ r, (pk r, username r)) <$> table.

(** A string without a newline: what the dot of the pattern can run over. *)
Fixpoint no_newline (s : string) : bool :=
  match s with
  | EmptyString => true
  | String c s' => negb (Ascii.eqb c "010"%char) && no_newline s'
  end.

(** The size suffixes that have a name. *)
Definition named_sizes : list string := ["_normal"; "_mini"; "_bigger"].

(** * Properties *)

(** ** Cache keys *)

Lemma string_app_cons (c : ascii) (s t : string) :
  String c s +:+ t = String c (s +:+ t).
Proof. reflexivity. Qed.

Lemma string_app_length (s t : string) :
  String.length (s +:+ t) = String.length s + String.length t.
Proof.
  induction s as [|c s IH]; [done|].
  rewrite string_app_cons. simpl. by rewrite IH.
Qed.

Lemma string_app_assoc (s t r : string) :
  (s +:+ t) +:+ r = s +:+ (t +:+ r).
Proof.
  induction s as [|c s IH]; [done|].
  rewrite !string_app_cons. by rewrite IH.
Qed.

Lemma string_app_cancel_r (s1 s2 t : string) :
  s1 +:+ t = s2 +:+ t → s1 = s2.
Proof.
  revert s2. induction s1 as [|c s1 IH]; intros [|d s2] H.
  - done.
  - apply (f_equal String.length) in H.
    rewrite !string_app_length in H. simpl in H. lia.
  - apply (f_equal String.length) in H.
    rewrite !string_app_length in H. simpl in H. lia.
  - rewrite !string_app_cons in H. injection H as -> H.
    f_equal. by apply IH.
Qed.

Lemma get_user_cache_key_eq (u : user) (extra : string) :
  get_user_cache_key u extra = "user-" +:+ (pretty (pk u) +:+ (":" +:+ extra)).
Proof.
  unfold get_user_cache_key, get_user_cache_key_prefix. simpl.
  by rewrite string_app_assoc.
Qed.

(** The cache key of a user determines the user's primary key. *)
Lemma get_user_cache_key_inj (u1 u2 : user) (extra : string) :
  get_user_cache_key u1 extra = get_user_cache_key u2 extra → pk u1 = pk u2.
Proof.
  rewrite !get_user_cache_key_eq. intros H.
  apply (inj (String.app "user-")) in H.
  apply string_app_cancel_r in H. by apply (inj pretty) in H.
Qed.

Lemma last_char_app (s t : string) :
  t ≠ "" → last_char (s +:+ t) = last_char t.
Proof.
  intros Ht. induction s as [|c s IH]; [done|].
  rewrite string_app_cons. simpl. rewrite IH.
  destruct (s +:+ t) eqn:E; [|done].
  destruct s; [done|]. by rewrite string_app_cons in E.
Qed.

(** An [:info] key is never a [:social-id] key. *)
Lemma info_key_ne_social_id_key (u1 u2 : user) :
  get_user_cache_key u1 "info" ≠ get_user_cache_key u2 "social-id".
Proof.
  rewrite !get_user_cache_key_eq. intros H.
  apply (f_equal last_char) in H.
  rewrite <-!string_app_assoc in H.
  rewrite (last_char_app _ "info"), (last_char_app _ "social-id") in H by done.
  discriminate.
Qed.

(** ** The first loop: deriving the cache keys *)

Lemma quiet_app ev1 ev2 : quiet ev1 → quiet ev2 → quiet (ev1 ++ ev2).
Proof.
  unfold quiet, lookups, get_manys, set_manys, db_updates.
  intros (H1&H2&H3&H4) (H5&H6&H7&H8).
  by rewrite !omap_app, H1, H2, H3, H4, H5, H6, H7, H8.
Qed.

Lemma with_cache_social_id_id (w : world) :
  with_cache_social_id (cache_social_id w) w = w.
Proof. by destruct w. Qed.

Lemma get_user_id_run (u : user) (w : world) :
  get_user_id u w =
  let key := get_user_cache_key u "social-id" in
  match cache_social_id w !! key with
  | Some s => (Return s, w, [CacheGet key])
  | None =>
      match social_auth_all w u with
      | [] => (Raise (SocialMediaException (msg_not_authenticated u)), w,
               [CacheGet key])
      | sa :: _ =>
          if decide (sa_provider sa = "twitter")
          then (Return (sa_uid sa),
                with_cache_social_id (<[key := sa_uid sa]> (cache_social_id w)) w,
                [CacheGet key; CacheSet key (sa_uid sa) 60])
          else (Raise (SocialMediaException
                         (msg_wrong_provider u (sa_provider sa))), w,
                [CacheGet key])
      end
  end.
Proof.
  unfold get_user_id, cache_get, cache_set, bind, emit, get_world, put_world,
    ret, raise. simpl.
  destruct (cache_social_id w !! _); [done|].
  destruct (social_auth_all w u) as [|sa ?]; [done|].
  by destruct (decide _).
Qed.

Lemma remote_id_eq (w : world) (u : user) :
  remote_id w u =
  match cache_social_id w !! get_user_cache_key u "social-id" with
  | Some s => Some s
  | None =>
      match social_auth_all w u with
      | [] => None
      | sa :: _ =>
          if decide (sa_provider sa = "twitter") then Some (sa_uid sa) else None
      end
  end.
Proof.
  unfold remote_id. rewrite get_user_id_run. simpl.
  destruct (cache_social_id w !! _); [done|].
  destruct (social_auth_all w u) as [|sa ?]; [done|].
  by destruct (decide _).
Qed.

Lemma social_auth_all_pk (w w' : world) (u u' : user) :
  social_auth_table w' = social_auth_table w → pk u' = pk u →
  social_auth_all w' u' = social_auth_all w u.
Proof. unfold social_auth_all. by intros -> ->. Qed.

(** Caching a derived remote ID does not change what [get_user_id]
    derives, for any user. *)
Lemma remote_id_cached (w : world) (u u' : user) (s : string) :
  cache_social_id w !! get_user_cache_key u "social-id" = None →
  remote_id w u = Some s →
  remote_id (with_cache_social_id
               (<[get_user_cache_key u "social-id" := s]> (cache_social_id w)) w) u'
  = remote_id w u'.
Proof.
  intros Hmiss Hid. rewrite !remote_id_eq in *. simpl.
  rewrite Hmiss in Hid.
  destruct (decide (get_user_cache_key u "social-id"
                    = get_user_cache_key u' "social-id")) as [Heq|Hne].
  - rewrite <-Heq, lookup_insert_eq, Hmiss.
    apply get_user_cache_key_inj in Heq.
    by rewrite (social_auth_all_pk w w u u').
  - by rewrite lookup_insert_ne.
Qed.

Lemma add_user_spec (u : user) (d : gmap string string) (w : world) :
  ∃ c ev, add_user u d w = (Return (add_entry w u d), with_cache_social_id c w, ev)
          ∧ quiet ev
          ∧ ∀ u', remote_id (with_cache_social_id c w) u' = remote_id w u'.
Proof.
  unfold add_user, try_except, bind, add_entry.
  pose proof (remote_id_cached w u) as Hstable.
  rewrite remote_id_eq in *. rewrite get_user_id_run. simpl.
  destruct (cache_social_id w !! _) as [s|] eqn:Hc.
  { exists (cache_social_id w), [CacheGet (get_user_cache_key u "social-id")].
    rewrite with_cache_social_id_id. by repeat split. }
  destruct (social_auth_all w u) as [|sa ?].
  { eexists (cache_social_id w), _.
    rewrite with_cache_social_id_id. by repeat split. }
  destruct (decide _).
  - eexists _, _. split; [done|]. split; [done|].
    intros u'. by apply Hstable.
  - eexists (cache_social_id w), _.
    rewrite with_cache_social_id_id. by repeat split.
Qed.

Lemma foldl_add_entry_stable (w w' : world) (users : list user) :
  (∀ u, remote_id w' u = remote_id w u) →
  ∀ d, foldl (λ d u, add_entry w' u d) d users
       = foldl (λ d u, add_entry w u d) d users.
Proof.
  intros Hs. induction users as [|u users IH]; intros d; [done|].
  simpl. rewrite IH. unfold add_entry. by rewrite Hs.
Qed.

Lemma for_each_add_user_spec (users : list user) :
  ∀ (d : gmap string string) (w : world),
  ∃ c ev, for_each add_user users d w
          = (Return (foldl (λ d u, add_entry w u d) d users),
             with_cache_social_id c w, ev)
          ∧ quiet ev
          ∧ ∀ u', remote_id (with_cache_social_id c w) u' = remote_id w u'.
Proof.
  induction users as [|u users IH]; intros d w.
  - exists (cache_social_id w), []. simpl. unfold ret.
    rewrite with_cache_social_id_id. by repeat split.
  - simpl. unfold bind.
    destruct (add_user_spec u d w) as (c1 & ev1 & -> & Hq1 & Hs1).
    destruct (IH (add_entry w u d) (with_cache_social_id c1 w))
      as (c2 & ev2 & -> & Hq2 & Hs2).
    exists c2, (ev1 ++ ev2). split; [|split].
    + by rewrite (foldl_add_entry_stable w _ users Hs1).
    + by apply quiet_app.
    + intros u'. rewrite <-Hs1. apply Hs2.
Qed.

Lemma data_of_eq (users : list user) (w : world) :
  data_of users w = foldl (λ d u, add_entry w u d) ∅ users.
Proof.
  unfold data_of.
  by destruct (for_each_add_user_spec users ∅ w) as (c & ev & -> & _).
Qed.

(** The first loop always completes; it only adds [:social-id] entries to
    the cache. *)
Lemma first_loop_run (users : list user) (w : world) :
  ∃ c ev, for_each add_user users ∅ w
          = (Return (data_of users w), with_cache_social_id c w, ev)
          ∧ quiet ev
          ∧ ∀ u, remote_id (with_cache_social_id c w) u = remote_id w u.
Proof.
  rewrite data_of_eq.
  destruct (for_each_add_user_spec users ∅ w) as (c & ev & H & Hq & Hs).
  by exists c, ev.
Qed.

(** The keys of [data] are the [:info] keys of the users with a remote ID. *)
Lemma data_of_lookup (users : list user) (w : world) (key user_id : string) :
  data_of users w !! key = Some user_id →
  ∃ u, u ∈ users ∧ key = get_user_cache_key u "info"
       ∧ remote_id w u = Some user_id.
Proof.
  rewrite data_of_eq.
  assert (∀ d, foldl (λ d u, add_entry w u d) d users !! key = Some user_id →
    d !! key = Some user_id ∨
    ∃ u, u ∈ users ∧ key = get_user_cache_key u "info"
         ∧ remote_id w u = Some user_id) as Hgen.
  { induction users as [|u users IH]; intros d Hd; [by left|].
    simpl in Hd. apply IH in Hd as [Hd|(u' & Hin & Hk & Hr)].
    - unfold add_entry in Hd. destruct (remote_id w u) as [s|] eqn:Hr.
      + destruct (decide (get_user_cache_key u "info" = key)) as [<-|Hne].
        * rewrite lookup_insert_eq in Hd. injection Hd as ->.
          right. exists u. split; [left|done].
        * rewrite lookup_insert_ne in Hd by done. by left.
      + by left.
    - right. exists u'. split; [by right|done]. }
  intros Hd. by destruct (Hgen ∅ Hd) as [?|?].
Qed.

Lemma remote_id_pk (w : world) (u u' : user) :
  pk u = pk u' → remote_id w u = remote_id w u'.
Proof.
  intros Hpk. rewrite !remote_id_eq, !get_user_cache_key_eq, Hpk.
  by rewrite (social_auth_all_pk w w u' u).
Qed.

(** A user without a remote ID has no entry in [data]. *)
Lemma data_of_not_connected (users : list user) (w : world) (u : user) :
  remote_id w u = None →
  data_of users w !! get_user_cache_key u "info" = None.
Proof.
  intros Hnone.
  destruct (data_of users w !! _) as [s|] eqn:Hd; [|done].
  apply data_of_lookup in Hd as (u' & _ & Hk & Hr).
  apply get_user_cache_key_inj in Hk.
  rewrite (remote_id_pk w u u') in Hnone by done. congruence.
Qed.

(** ** Dictionaries and the cache *)

Lemma get_many_of_cons (c : gmap string info) (k : string) (keys : list string) :
  get_many_of c (k :: keys)
  = match c !! k with
    | Some v => <[k := v]> (get_many_of c keys)
    | None => get_many_of c keys
    end.
Proof. done. Qed.

Lemma get_many_of_lookup_in (c : gmap string info) (keys : list string) (k : string) :
  k ∈ keys → get_many_of c keys !! k = c !! k.
Proof.
  induction keys as [|k' keys IH]; intros Hin; [by apply elem_of_nil in Hin|].
  rewrite get_many_of_cons.
  destruct (decide (k' = k)) as [->|Hne].
  - destruct (c !! k) as [v|] eqn:Hc; [by rewrite lookup_insert_eq|].
    destruct (decide (k ∈ keys)) as [Hin'|Hnin]; [by rewrite IH|].
    clear IH Hin. induction keys as [|k'' keys IH]; [done|].
    rewrite get_many_of_cons. apply not_elem_of_cons in Hnin as [Hne Hnin].
    destruct (c !! k''); [rewrite lookup_insert_ne by done|]; by apply IH.
  - apply elem_of_cons in Hin as [->|Hin]; [done|].
    destruct (c !! k'); [rewrite lookup_insert_ne by done|]; by apply IH.
Qed.

Lemma get_many_of_lookup_notin (c : gmap string info) (keys : list string) (k : string) :
  k ∉ keys → get_many_of c keys !! k = None.
Proof.
  induction keys as [|k' keys IH]; intros Hnin; [done|].
  rewrite get_many_of_cons. apply not_elem_of_cons in Hnin as [Hne Hnin].
  destruct (c !! k'); [rewrite lookup_insert_ne by done|]; by apply IH.
Qed.

Lemma elem_of_keys {V} (d : gmap string V) (k : string) :
  k ∈ (map_to_list d).*1 ↔ k ∈ dom d.
Proof.
  rewrite elem_of_dom, list_elem_of_fmap. split.
  - intros ([k' v] & -> & Hin). apply elem_of_map_to_list in Hin. by eexists.
  - intros [v Hv]. exists (k, v). split; [done|]. by apply elem_of_map_to_list.
Qed.

(** Reading the cache for the keys of [data] gives the cached entries of
    the requested users. *)
Lemma get_many_of_keys (c : gmap string info) (data : gmap string string) :
  get_many_of c (map_to_list data).*1 = filter (λ kv, kv.1 ∈ dom data) c.
Proof.
  apply map_eq. intros k.
  destruct (decide (k ∈ (map_to_list data).*1)) as [Hin|Hnin].
  - rewrite get_many_of_lookup_in by done.
    apply elem_of_keys in Hin. destruct (c !! k) as [v|] eqn:Hc.
    + symmetry. by apply map_lookup_filter_Some.
    + symmetry. apply map_lookup_filter_None. by left.
  - rewrite get_many_of_lookup_notin by done.
    symmetry. apply map_lookup_filter_None. right. intros v _ Hin.
    apply Hnin. by apply elem_of_keys.
Qed.

Lemma filter_fst {A B} (P : A → Prop) `{!∀ x, Decision (P x)} (l : list (A * B)) :
  filter P l.*1 = (filter (λ kv, P kv.1) l).*1.
Proof.
  induction l as [|[a b] l IH]; [done|].
  rewrite fmap_cons, !filter_cons. simpl.
  destruct (decide (P a)); [rewrite fmap_cons|]; by rewrite IH.
Qed.

Lemma bind_Return {A B} (m : M A) (f : A → M B) (w w1 w2 : world) (a : A)
    (r : outcome B) (e1 e2 ev : list event) :
  m w = (Return a, w1, e1) → f a w1 = (r, w2, e2) → ev = e1 ++ e2 →
  bind m f w = (r, w2, ev).
Proof. unfold bind. by intros -> -> ->. Qed.

Lemma bind_Return_eq {A B} (m : M A) (f : A → M B) (w w1 : world) (a : A)
    (e1 : list event) :
  m w = (Return a, w1, e1) →
  bind m f w = prepend e1 (f a w1).
Proof. unfold bind. intros ->. by destruct (f a w1) as [[??]?]. Qed.

Lemma prepend_eq {A} (e1 e2 : list event) (r : outcome A) (w : world) :
  prepend e1 (r, w, e2) = (r, w, e1 ++ e2).
Proof. done. Qed.

Lemma bind_Raise {A B} (m : M A) (f : A → M B) (w w1 : world) (x : exn) e1 :
  m w = (Raise x, w1, e1) → bind m f w = (Raise x, w1, e1).
Proof. unfold bind. by intros ->. Qed.

(** [[data[key] for key in keys]] for keys taken from [data.items()]. *)
Lemma list_comp_getitem {V} (d : gmap string V) (l : list (string * V)) (w : world) :
  l ⊆ map_to_list d →
  list_comp (getitem d) l.*1 w = (Return l.*2, w, []).
Proof.
  induction l as [|[k v] l IH]; intros Hsub; [done|].
  rewrite !fmap_cons. simpl.
  assert (d !! k = Some v) as Hk.
  { apply elem_of_map_to_list, Hsub. left. }
  eapply bind_Return; [unfold getitem; by rewrite Hk| |done].
  eapply bind_Return;
    [apply IH; intros x Hx; apply Hsub; by right|done|done].
Qed.

Lemma reverse_of_lookup (data : gmap string string) (user_id key : string) :
  reverse_of data !! user_id = Some key → data !! key = Some user_id.
Proof.
  unfold reverse_of. intros H. apply elem_of_map_to_list.
  revert H. generalize (map_to_list data). intros l.
  assert (∀ acc : gmap string string,
    foldl (λ acc kv, <[kv.2:=kv.1]> acc) acc l !! user_id = Some key →
    acc !! user_id = Some key ∨ (key, user_id) ∈ l) as Hgen.
  { induction l as [|[k v] l IH]; intros acc H; [by left|].
    simpl in H. apply IH in H as [H|H]; [|right; by right].
    destruct (decide (v = user_id)) as [->|Hne].
    - rewrite lookup_insert_eq in H. injection H as ->. right. left.
    - rewrite lookup_insert_ne in H by done. by left. }
  intros H. by destruct (Hgen ∅ H) as [?|?].
Qed.

Lemma reverse_of_is_Some (data : gmap string string) (user_id key : string) :
  data !! key = Some user_id → is_Some (reverse_of data !! user_id).
Proof.
  unfold reverse_of. intros H. apply elem_of_map_to_list in H.
  revert H. generalize (map_to_list data). intros l.
  assert (∀ acc : gmap string string,
    is_Some (acc !! user_id) ∨ (key, user_id) ∈ l →
    is_Some (foldl (λ acc kv, <[kv.2:=kv.1]> acc) acc l !! user_id)) as Hgen.
  { induction l as [|[k v] l IH]; intros acc H.
    - destruct H as [H|H]; [done|by apply elem_of_nil in H].
    - simpl. apply IH. destruct H as [H|H].
      + left. rewrite lookup_insert_is_Some.
        destruct (decide (v = user_id)); auto.
      + apply elem_of_cons in H as [[= -> ->]|H]; [|by right].
        left. rewrite lookup_insert_eq. by eexists. }
  intros H. apply Hgen. by right.
Qed.

(** ** The lookup loop *)

Lemma with_twitter_calls_id (w : world) :
  with_twitter_calls (twitter_calls w) w = w.
Proof. by destruct w. Qed.

Lemma store_loop_ok rd (bulk : list info) (acc : gmap string info) (w : world) :
  Forall (known rd) bulk →
  for_each (store_info rd) bulk acc w = (Return (foldl (store rd) acc bulk), w, []).
Proof.
  revert acc. induction bulk as [|i bulk IH]; intros acc Hall; [done|].
  apply Forall_cons in Hall as [[key Hkey] Hall]. simpl.
  assert (store rd acc i = <[key := i]> acc) as -> by (unfold store; by rewrite Hkey).
  eapply bind_Return.
  - unfold store_info, getitem. rewrite Hkey. by eapply bind_Return.
  - by apply IH.
  - done.
Qed.

Lemma store_loop_bad rd (bulk : list info) (acc : gmap string info) (w : world) :
  ¬ Forall (known rd) bulk →
  ∃ key, for_each (store_info rd) bulk acc w = (Raise (KeyError key), w, []).
Proof.
  revert acc. induction bulk as [|i bulk IH]; intros acc Hbad.
  { destruct Hbad. constructor. }
  simpl. destruct (rd !! pretty (info_id i)) as [key|] eqn:Hkey.
  - destruct (IH (<[key := i]> acc)) as [key' Hrun].
    { intros Hall. apply Hbad. constructor; [by eexists|done]. }
    exists key'. eapply bind_Return.
    + unfold store_info, getitem. rewrite Hkey. by eapply bind_Return.
    + apply Hrun.
    + done.
  - exists (pretty (info_id i)). apply bind_Raise.
    unfold store_info, getitem. rewrite Hkey. by apply bind_Raise.
Qed.

Lemma bulk_of_next (w : world) (i : nat) (g : list string) :
  bulk_of (next_call w) i g = bulk_of w (S i) g.
Proof.
  unfold bulk_of. simpl.
  by replace (twitter_calls w + S i) with (S (twitter_calls w + i)) by lia.
Qed.

Lemma fetched_from_cons (w : world) (g : list string) (gs : list (list string)) :
  fetched_from w (g :: gs) = bulk_of w 0 g ++ fetched_from (next_call w) gs.
Proof.
  unfold fetched_from. simpl. f_equal. f_equal.
  apply imap_ext. intros i g' _. simpl. by rewrite bulk_of_next.
Qed.

Lemma questionable_from_cons (w : world) (g : list string) (gs : list (list string)) :
  questionable_from w (g :: gs)
  = filter (λ user_id, user_id ∉ seen_in (bulk_of w 0 g)) g
    ++ questionable_from (next_call w) gs.
Proof.
  unfold questionable_from. simpl. f_equal. f_equal.
  apply imap_ext. intros i g' _. simpl. by rewrite bulk_of_next.
Qed.

Lemma last_seen_from_cons (w : world) (g : list string) (gs : list (list string)) :
  last_seen_from w (g :: gs)
  = Some (default (seen_in (bulk_of w 0 g)) (last_seen_from (next_call w) gs)).
Proof.
  unfold last_seen_from. rewrite imap_cons, last_cons.
  rewrite (imap_ext _ (λ i g, seen_in (bulk_of (next_call w) i g)) gs).
  2:{ intros i g' _. simpl. by rewrite bulk_of_next. }
  by destruct (last _).
Qed.

Lemma users_lookup_run (g : list string) (w : world) :
  users_lookup g w
  = (match twitter_api w (twitter_calls w) (String.concat "," g) with
     | Some bulk_info => Return bulk_info
     | None => Raise TwitterHTTPError
     end, next_call w, [UsersLookup g]).
Proof. unfold users_lookup. by destruct (twitter_api w _ _). Qed.

Lemma lookup_bulk_run (g : list string) (w : world) :
  try_except (users_lookup g)
    (λ e, match e with TwitterHTTPError => Some (ret []) | _ => None end) w
  = (Return (bulk_of w 0 g), next_call w, [UsersLookup g]).
Proof.
  unfold try_except, bulk_of. rewrite users_lookup_run, Nat.add_0_r.
  by destruct (twitter_api w _ _).
Qed.

Lemma lookup_group_ok rd (g : list string) (v : lookup_vars) (w : world) :
  Forall (known rd) (bulk_of w 0 g) →
  lookup_group rd g v w
  = (Return (LookupVars (foldl (store rd) (new_info v) (bulk_of w 0 g))
               (questionable_ids v
                ++ filter (λ user_id, user_id ∉ seen_in (bulk_of w 0 g)) g)
               (Some (seen_in (bulk_of w 0 g)))),
     next_call w, [UsersLookup g]).
Proof.
  intros Hall. unfold lookup_group.
  eapply bind_Return.
  - apply lookup_bulk_run.
  - eapply bind_Return; [by apply store_loop_ok|done|done].
  - done.
Qed.

Lemma lookup_group_bad rd (g : list string) (v : lookup_vars) (w : world) :
  ¬ Forall (known rd) (bulk_of w 0 g) →
  ∃ key, lookup_group rd g v w
         = (Raise (KeyError key), next_call w, [UsersLookup g]).
Proof.
  intros Hbad. unfold lookup_group.
  destruct (store_loop_bad rd _ (new_info v) (next_call w) Hbad) as [key Hrun].
  exists key.
  eapply bind_Return.
  - apply lookup_bulk_run.
  - by apply bind_Raise.
  - done.
Qed.

Lemma calls_next (w : world) (k : nat) :
  with_twitter_calls (twitter_calls (next_call w) + k) (next_call w)
  = with_twitter_calls (twitter_calls w + S k) w.
Proof. unfold next_call, with_twitter_calls. simpl. f_equal. lia. Qed.

(** The loop over well-formed answers runs to its end. *)
Lemma lookup_loop_ok rd (groups : list (list string)) :
  ∀ (v : lookup_vars) (w : world),
  Forall (known rd) (fetched_from w groups) →
  for_each (lookup_group rd) groups v w
  = (Return (LookupVars (foldl (store rd) (new_info v) (fetched_from w groups))
               (questionable_ids v ++ questionable_from w groups)
               (match last_seen_from w groups with
                | Some s => Some s
                | None => seen_ids v
                end)),
     with_twitter_calls (twitter_calls w + length groups) w,
     UsersLookup <$> groups).
Proof.
  induction groups as [|g groups IH]; intros v w Hall.
  - simpl. unfold ret. rewrite Nat.add_0_r, with_twitter_calls_id.
    unfold questionable_from. simpl. rewrite app_nil_r. by destruct v.
  - rewrite fetched_from_cons in Hall. apply Forall_app in Hall as [Hg Hgs].
    rewrite fetched_from_cons, questionable_from_cons,
      last_seen_from_cons, foldl_app.
    simpl. rewrite (bind_Return_eq _ _ _ _ _ _ (lookup_group_ok rd g v w Hg)).
    rewrite IH by done. rewrite prepend_eq.
    cbn [new_info questionable_ids seen_ids fmap list_fmap length].
    rewrite calls_next, <-app_assoc.
    by destruct (last_seen_from (next_call w) groups).
Qed.

Lemma next_call_eq (w : world) :
  next_call w = with_twitter_calls (twitter_calls w + 1) w.
Proof. unfold next_call. f_equal. lia. Qed.

(** A malformed answer stops the loop with a [KeyError], after the lookup
    that received it. *)
Lemma lookup_loop_bad rd (groups : list (list string)) :
  ∀ (v : lookup_vars) (w : world),
  ¬ Forall (known rd) (fetched_from w groups) →
  ∃ key k, 0 < k ≤ length groups ∧
    for_each (lookup_group rd) groups v w
    = (Raise (KeyError key), with_twitter_calls (twitter_calls w + k) w,
       UsersLookup <$> take k groups).
Proof.
  induction groups as [|g groups IH]; intros v w Hbad.
  { destruct Hbad. constructor. }
  rewrite fetched_from_cons in Hbad.
  destruct (decide (Forall (known rd) (bulk_of w 0 g))) as [Hg|Hg].
  - destruct (IH (LookupVars (foldl (store rd) (new_info v) (bulk_of w 0 g))
               (questionable_ids v
                ++ filter (λ user_id, user_id ∉ seen_in (bulk_of w 0 g)) g)
               (Some (seen_in (bulk_of w 0 g)))) (next_call w))
      as (key & k & Hk & Hrun).
    { intros Hgs. apply Hbad. by apply Forall_app. }
    exists key, (S k). split; [simpl; lia|].
    simpl. rewrite (bind_Return_eq _ _ _ _ _ _ (lookup_group_ok rd g v w Hg)).
    rewrite Hrun, prepend_eq. by rewrite calls_next.
  - destruct (lookup_group_bad rd g v w Hg) as [key Hrun].
    exists key, 1. split; [simpl; lia|].
    simpl. rewrite (bind_Raise _ _ _ _ _ _ Hrun). by rewrite next_call_eq.
Qed.

(** Whatever the answers, the loop issues its lookups group by group, in
    order. *)
Lemma lookup_loop_trace rd (groups : list (list string)) (v : lookup_vars)
    (w : world) :
  ∃ r k, k ≤ length groups ∧ (groups ≠ [] → 0 < k) ∧
    for_each (lookup_group rd) groups v w
    = (r, with_twitter_calls (twitter_calls w + k) w,
       UsersLookup <$> take k groups).
Proof.
  destruct (decide (Forall (known rd) (fetched_from w groups))) as [Hok|Hbad].
  - eexists _, (length groups). split; [done|].
    split; [destruct groups; [done|simpl; lia]|].
    rewrite lookup_loop_ok by done. by rewrite firstn_all.
  - destruct (lookup_loop_bad rd groups v w Hbad) as (key & k & Hk & Hrun).
    exists (Raise (KeyError key)), k. split; [lia|]. split; [lia|done].
Qed.

(** ** Chunks *)

Lemma chunk_fuel_length {A} (fuel : nat) (l : list A) (n : nat) :
  Forall (λ g, length g ≤ n) (chunk_fuel fuel l n).
Proof.
  revert l. induction fuel as [|fuel IH]; intros l; [constructor|].
  destruct l as [|x l]; [constructor|]. simpl. constructor; [|apply IH].
  rewrite length_take. lia.
Qed.

Lemma chunk_fuel_join {A} (fuel : nat) (l : list A) (n : nat) :
  0 < n → length l ≤ fuel → mjoin (chunk_fuel fuel l n) = l.
Proof.
  intros Hn. revert l. induction fuel as [|fuel IH]; intros l Hlen.
  { destruct l; [done|simpl in Hlen; lia]. }
  destruct l as [|x l]; [done|].
  change (chunk_fuel (S fuel) (x :: l) n)
    with (take n (x :: l) :: chunk_fuel fuel (drop n (x :: l)) n).
  change (mjoin (?g :: ?gs)) with (g ++ mjoin gs).
  rewrite IH; [apply take_drop|].
  rewrite length_drop. simpl in *. lia.
Qed.

Lemma chunk_length {A} (l : list A) (n : nat) :
  Forall (λ g, length g ≤ n) (chunk l n).
Proof. apply chunk_fuel_length. Qed.

Lemma chunk_join {A} (l : list A) (n : nat) : 0 < n → mjoin (chunk l n) = l.
Proof. intros Hn. by apply chunk_fuel_join. Qed.

Lemma chunk_cons {A} (x : A) (l : list A) (n : nat) :
  ∃ gs, chunk (x :: l) n = take n (x :: l) :: gs.
Proof. by eexists. Qed.

Lemma chunk_ne_nil {A} (l : list A) (n : nat) : l ≠ [] → chunk l n ≠ [].
Proof.
  intros Hl. destruct l as [|x l]; [done|].
  by destruct (chunk_cons x l n) as [gs ->].
Qed.

(** ** The fetch block *)

Lemma lookups_app (ev1 ev2 : list event) :
  lookups (ev1 ++ ev2) = lookups ev1 ++ lookups ev2.
Proof. apply omap_app. Qed.

Lemma lookups_UsersLookup (gs : list (list string)) :
  lookups (UsersLookup <$> gs) = gs.
Proof.
  induction gs as [|g gs IH]; [done|].
  rewrite fmap_cons. unfold lookups in *. simpl. f_equal. exact IH.
Qed.

Lemma no_lookups_quiet (gs : list (list string)) :
  get_manys (UsersLookup <$> gs) = [] ∧ set_manys (UsersLookup <$> gs) = []
  ∧ db_updates (UsersLookup <$> gs) = [].
Proof. induction gs as [|g gs IH]; [done|]. rewrite fmap_cons. apply IH. Qed.

Lemma questionable_from_subseteq (w : world) (groups : list (list string)) :
  questionable_from w groups ⊆ mjoin groups.
Proof.
  revert w. induction groups as [|g groups IH]; intros w; [done|].
  rewrite questionable_from_cons. simpl. intros x Hx.
  apply elem_of_app in Hx as [Hx|Hx].
  - apply elem_of_app. left. by apply list_elem_of_filter in Hx as [_ ?].
  - apply elem_of_app. right. by apply (IH (next_call w)).
Qed.

(** The warning about the questionable IDs finds every ID it names. *)
Lemma questionable_strings (data : gmap string string) (l : list string)
    (w : world) :
  Forall (λ user_id, ∃ key, data !! key = Some user_id) l →
  list_comp (λ user_id,
               let* cache_key := getitem (reverse_of data) user_id in
               getitem data cache_key) l w
  = (Return l, w, []).
Proof.
  induction l as [|user_id l IH]; intros Hall; [done|].
  apply Forall_cons in Hall as [[key Hkey] Hall]. simpl.
  destruct (reverse_of_is_Some data user_id key Hkey) as [key' Hrev].
  pose proof (reverse_of_lookup data user_id key' Hrev) as Hdata.
  eapply bind_Return.
  - eapply bind_Return; [unfold getitem; by rewrite Hrev| |done].
    unfold getitem. by rewrite Hdata.
  - eapply bind_Return; [by apply IH|done|done].
  - done.
Qed.

Lemma last_seen_from_is_Some (w : world) (groups : list (list string)) :
  groups ≠ [] → is_Some (last_seen_from w groups).
Proof.
  destruct groups as [|g groups]; [done|]. intros _.
  rewrite last_seen_from_cons. by eexists.
Qed.

Lemma questionable_log_run (data : gmap string string) (q : list string)
    (w : world) :
  Forall (λ user_id, ∃ key, data !! key = Some user_id) q →
  match q with
  | [] => ret tt
  | _ :: _ =>
      let* user_strings :=
        list_comp (λ user_id,
                     let* cache_key := getitem (reverse_of data) user_id in
                     getitem data cache_key) q in
      log_warning (msg_inaccessible user_strings)
  end w = (Return tt, w, inaccessible_log q).
Proof.
  intros Hall. destruct q as [|x q]; [done|].
  by rewrite (bind_Return_eq _ _ _ _ _ _ (questionable_strings data _ w Hall)).
Qed.

Lemma cache_set_many_run (entries : gmap string info) (w : world) :
  cache_set_many entries w
  = (Return (), with_cache_info (entries ∪ cache_info w) w,
     [CacheSetMany entries]).
Proof. done. Qed.

Lemma update_sm_not_found_run (uids : gset string) (flag : bool) (w : world) :
  update_sm_not_found uids flag w
  = (Return (),
     with_users_table
       (set_sm_not_found (social_auth_table w) uids flag (users_table w)) w,
     [DbUpdate uids flag]).
Proof. done. Qed.

(** The fetch block on well-formed answers. *)
Lemma fetch_uncached_ok (data : gmap string string) (all_info : gmap string info)
    (ms : list (string * string)) (w : world) :
  ms ⊆ map_to_list data → ms ≠ [] →
  Forall (known (reverse_of data)) (fetched_from w (chunk ms.*2 100)) →
  ∃ seen, last_seen_from w (chunk ms.*2 100) = Some seen ∧
    fetch_uncached data (reverse_of data) all_info ms.*1 w
    = (Return (foldl (store (reverse_of data)) ∅
                 (fetched_from w (chunk ms.*2 100)) ∪ all_info),
       with_users_table
         (set_sm_not_found (social_auth_table w)
            (list_to_set (questionable_from w (chunk ms.*2 100))) true
            (set_sm_not_found (social_auth_table w) seen false (users_table w)))
         (with_cache_info
            (foldl (store (reverse_of data)) ∅
               (fetched_from w (chunk ms.*2 100)) ∪ cache_info w)
            (with_twitter_calls
               (twitter_calls w + length (chunk ms.*2 100)) w)),
       [LogInfo (msg_hitting (length ms.*1) ms.*2)]
       ++ (UsersLookup <$> chunk ms.*2 100)
       ++ inaccessible_log (questionable_from w (chunk ms.*2 100))
       ++ [CacheSetMany (foldl (store (reverse_of data)) ∅
                           (fetched_from w (chunk ms.*2 100)));
           DbUpdate seen false;
           DbUpdate (list_to_set (questionable_from w (chunk ms.*2 100))) true]).
Proof.
  intros Hsub Hne Hok.
  destruct (last_seen_from_is_Some w (chunk ms.*2 100)) as [seen Hseen].
  { apply chunk_ne_nil. by destruct ms. }
  exists seen. split; [done|]. unfold fetch_uncached.
  assert (Forall (λ user_id, ∃ key, data !! key = Some user_id)
            (questionable_from w (chunk ms.*2 100))) as Hq.
  { apply Forall_forall. intros user_id Hq.
    apply questionable_from_subseteq in Hq.
    rewrite chunk_join in Hq by lia.
    apply list_elem_of_fmap in Hq as ([k v] & -> & Hin).
    exists k. by apply elem_of_map_to_list, Hsub. }
  rewrite (bind_Return_eq _ _ _ _ _ _ (list_comp_getitem data ms w Hsub)).
  unfold log_info.
  rewrite (bind_Return_eq (emit _) _ w w () [LogInfo (msg_hitting (length ms.*1) ms.*2)])
    by done.
  rewrite (bind_Return_eq _ _ _ _ _ _ (list_comp_getitem data ms w Hsub)).
  rewrite (bind_Return_eq _ _ _ _ _ _
             (lookup_loop_ok (reverse_of data) _ (LookupVars ∅ [] None) w Hok)).
  cbn [new_info questionable_ids seen_ids]. rewrite Hseen, app_nil_l.
  rewrite (bind_Return_eq _ _ _ _ _ _ (questionable_log_run data _ _ Hq)).
  rewrite (bind_Return_eq _ _ _ _ _ _ (cache_set_many_run _ _)).
  rewrite (bind_Return_eq (ret seen) _ _ _ seen []) by done.
  rewrite (bind_Return_eq _ _ _ _ _ _ (update_sm_not_found_run _ _ _)).
  rewrite (bind_Return_eq _ _ _ _ _ _ (update_sm_not_found_run _ _ _)).
  unfold ret. rewrite !prepend_eq. done.
Qed.

(** A malformed answer aborts the fetch block before anything is stored. *)
Lemma fetch_uncached_bad (data : gmap string string) (all_info : gmap string info)
    (ms : list (string * string)) (w : world) :
  ms ⊆ map_to_list data →
  ¬ Forall (known (reverse_of data)) (fetched_from w (chunk ms.*2 100)) →
  ∃ key k, 0 < k ≤ length (chunk ms.*2 100) ∧
    fetch_uncached data (reverse_of data) all_info ms.*1 w
    = (Raise (KeyError key), with_twitter_calls (twitter_calls w + k) w,
       [LogInfo (msg_hitting (length ms.*1) ms.*2)]
       ++ (UsersLookup <$> take k (chunk ms.*2 100))).
Proof.
  intros Hsub Hbad.
  destruct (lookup_loop_bad (reverse_of data) _ (LookupVars ∅ [] None) w Hbad)
    as (key & k & Hk & Hrun).
  exists key, k. split; [done|]. unfold fetch_uncached.
  rewrite (bind_Return_eq _ _ _ _ _ _ (list_comp_getitem data ms w Hsub)).
  unfold log_info.
  rewrite (bind_Return_eq (emit _) _ w w () [LogInfo (msg_hitting (length ms.*1) ms.*2)])
    by done.
  rewrite (bind_Return_eq _ _ _ _ _ _ (list_comp_getitem data ms w Hsub)).
  rewrite (bind_Raise _ _ _ _ _ _ Hrun). by rewrite !prepend_eq.
Qed.

(** ** The whole call *)

Lemma misses_subseteq (users : list user) (force_refresh : bool) (w : world) :
  misses users force_refresh w ⊆ map_to_list (data_of users w).
Proof. intros x Hx. by apply list_elem_of_filter in Hx as [_ ?]. Qed.

(** [get_users_info] is the first loop, the cache read and, when there are
    misses, the fetch block. *)
Lemma get_users_info_dict_run (users : list user) (force_refresh : bool)
    (w : world) :
  ∃ c ev1,
    for_each add_user users ∅ w
    = (Return (data_of users w), with_cache_social_id c w, ev1)
    ∧ quiet ev1
    ∧ get_users_info_dict users force_refresh w
      = prepend (ev1 ++ cache_read users force_refresh w)
          (match misses users force_refresh w with
           | [] => (Return (cache_hits users force_refresh w),
                    with_cache_social_id c w, [])
           | _ :: _ =>
               fetch_uncached (data_of users w) (reverse_of (data_of users w))
                 (cache_hits users force_refresh w)
                 (misses users force_refresh w).*1
                 (with_cache_social_id c w)
           end).
Proof.
  destruct (first_loop_run users w) as (c & ev1 & Hrun & Hq & _).
  exists c, ev1. split; [done|]. split; [done|].
  unfold get_users_info_dict.
  rewrite (bind_Return_eq _ _ _ _ _ _ Hrun).
  assert ((if negb force_refresh
              || bool_decide (6000 < Z.of_nat (size (data_of users w)))%Z
           then cache_get_many (map_to_list (data_of users w)).*1
           else ret ∅) (with_cache_social_id c w)
          = (Return (cache_hits users force_refresh w),
             with_cache_social_id c w, cache_read users force_refresh w))
    as Hread.
  { unfold cache_hits, cache_read, consults_cache.
    destruct (negb force_refresh || bool_decide _); [|done].
    unfold cache_get_many, bind, emit, get_world, ret. simpl.
    by rewrite get_many_of_keys. }
  rewrite (bind_Return_eq _ _ _ _ _ _ Hread).
  rewrite filter_fst. fold (misses users force_refresh w).
  destruct (misses users force_refresh w) as [|m ms] eqn:Hm.
  - rewrite fmap_nil. unfold ret. by rewrite !prepend_eq, !app_nil_r.
  - rewrite fmap_cons.
    change (m.1 :: ms.*1) with ((m :: ms).*1).
    destruct (fetch_uncached _ _ _ _ _) as [[r w'] ev'].
    by rewrite !prepend_eq, app_assoc.
Qed.

(** The three ways a call can go: no miss, misses answered by well-formed
    profiles, misses answered by a profile nobody asked for. *)
Lemma get_users_info_dict_cached (users : list user) (force_refresh : bool)
    (w : world) :
  misses users force_refresh w = [] →
  ∃ c ev1, quiet ev1 ∧
    get_users_info_dict users force_refresh w
    = (Return (cache_hits users force_refresh w), with_cache_social_id c w,
       ev1 ++ cache_read users force_refresh w).
Proof.
  intros Hm.
  destruct (get_users_info_dict_run users force_refresh w)
    as (c & ev1 & _ & Hq & ->).
  exists c, ev1. split; [done|]. by rewrite Hm, prepend_eq, app_nil_r.
Qed.

Lemma get_users_info_dict_ok (users : list user) (force_refresh : bool)
    (w : world) :
  misses users force_refresh w ≠ [] →
  Forall (known (reverse_of (data_of users w))) (fetched users force_refresh w) →
  ∃ c ev1 seen, quiet ev1 ∧
    last_seen_from w (chunk (missed_ids users force_refresh w) 100) = Some seen ∧
    get_users_info_dict users force_refresh w
    = (Return (newly_fetched users force_refresh w
               ∪ cache_hits users force_refresh w),
       with_users_table
         (set_sm_not_found (social_auth_table w)
            (list_to_set (questionable_from w
                            (chunk (missed_ids users force_refresh w) 100)))
            true
            (set_sm_not_found (social_auth_table w) seen false (users_table w)))
         (with_cache_info (newly_fetched users force_refresh w ∪ cache_info w)
            (with_twitter_calls
               (twitter_calls w
                + length (chunk (missed_ids users force_refresh w) 100))
               (with_cache_social_id c w))),
       ev1 ++ cache_read users force_refresh w
       ++ [LogInfo (msg_hitting (length (misses users force_refresh w).*1)
                      (missed_ids users force_refresh w))]
       ++ (UsersLookup <$> chunk (missed_ids users force_refresh w) 100)
       ++ inaccessible_log
            (questionable_from w (chunk (missed_ids users force_refresh w) 100))
       ++ [CacheSetMany (newly_fetched users force_refresh w);
           DbUpdate seen false;
           DbUpdate (list_to_set
                       (questionable_from w
                          (chunk (missed_ids users force_refresh w) 100)))
             true]).
Proof.
  intros Hm Hok.
  destruct (get_users_info_dict_run users force_refresh w)
    as (c & ev1 & _ & Hq & ->).
  destruct (fetch_uncached_ok (data_of users w)
              (cache_hits users force_refresh w)
              (misses users force_refresh w) (with_cache_social_id c w))
    as (seen & Hseen & Hrun); [apply misses_subseteq|done|done|].
  exists c, ev1, seen. split; [done|]. split; [done|].
  destruct (misses users force_refresh w) as [|m ms] eqn:Hms; [done|].
  rewrite <-Hms in *. rewrite Hrun, prepend_eq.
  unfold newly_fetched, fetched, missed_ids. by rewrite <-app_assoc.
Qed.

Lemma get_users_info_dict_bad (users : list user) (force_refresh : bool)
    (w : world) :
  ¬ Forall (known (reverse_of (data_of users w))) (fetched users force_refresh w) →
  ∃ c ev1 key k, quiet ev1 ∧
    0 < k ≤ length (chunk (missed_ids users force_refresh w) 100) ∧
    get_users_info_dict users force_refresh w
    = (Raise (KeyError key),
       with_twitter_calls (twitter_calls w + k) (with_cache_social_id c w),
       ev1 ++ cache_read users force_refresh w
       ++ [LogInfo (msg_hitting (length (misses users force_refresh w).*1)
                      (missed_ids users force_refresh w))]
       ++ (UsersLookup <$> take k (chunk (missed_ids users force_refresh w) 100))).
Proof.
  intros Hbad.
  destruct (get_users_info_dict_run users force_refresh w)
    as (c & ev1 & _ & Hq & ->).
  destruct (fetch_uncached_bad (data_of users w)
              (cache_hits users force_refresh w)
              (misses users force_refresh w) (with_cache_social_id c w))
    as (key & k & Hk & Hrun); [apply misses_subseteq|done|].
  exists c, ev1, key, k. split; [done|]. split; [done|].
  destruct (misses users force_refresh w) as [|m ms] eqn:Hms.
  { destruct Hbad. unfold fetched, missed_ids. rewrite Hms. constructor. }
  rewrite <-Hms in *. rewrite Hrun, prepend_eq. by rewrite <-app_assoc.
Qed.

(** [get_users_info] returns the values of the dictionary. *)
Lemma get_users_info_eq (users : list user) (force_refresh : bool) (w : world) :
  get_users_info users force_refresh w
  = (match result_of (get_users_info_dict users force_refresh w) with
     | Return all_info => Return (map_to_list all_info).*2
     | Raise e => Raise e
     end,
     world_of (get_users_info_dict users force_refresh w),
     events_of (get_users_info_dict users force_refresh w)).
Proof.
  unfold get_users_info, bind, result_of, world_of, events_of.
  destruct (get_users_info_dict users force_refresh w) as [[[m|e] w'] ev];
    [|done].
  unfold ret. simpl. by rewrite app_nil_r.
Qed.

Lemma events_of_get_users_info (users : list user) (force_refresh : bool)
    (w : world) :
  events_of (get_users_info users force_refresh w)
  = events_of (get_users_info_dict users force_refresh w).
Proof. by rewrite get_users_info_eq. Qed.

Lemma world_of_get_users_info (users : list user) (force_refresh : bool)
    (w : world) :
  world_of (get_users_info users force_refresh w)
  = world_of (get_users_info_dict users force_refresh w).
Proof. by rewrite get_users_info_eq. Qed.

(** ** Traces of the three cases *)

Lemma cache_read_quiet (users : list user) (force_refresh : bool) (w : world) :
  lookups (cache_read users force_refresh w) = []
  ∧ set_manys (cache_read users force_refresh w) = []
  ∧ db_updates (cache_read users force_refresh w) = []
  ∧ cache_sets (cache_read users force_refresh w) = [].
Proof. unfold cache_read. by destruct (consults_cache _ _ _). Qed.

Lemma inaccessible_log_quiet (q : list string) :
  lookups (inaccessible_log q) = [] ∧ set_manys (inaccessible_log q) = []
  ∧ db_updates (inaccessible_log q) = [] ∧ get_manys (inaccessible_log q) = [].
Proof. by destruct q. Qed.

Lemma cache_hits_lookup (users : list user) (force_refresh : bool) (w : world)
    (k : string) :
  consults_cache users force_refresh w = true →
  k ∈ dom (data_of users w) →
  cache_hits users force_refresh w !! k = cache_info w !! k.
Proof.
  intros Hc Hk. unfold cache_hits. rewrite Hc.
  destruct (cache_info w !! k) as [i|] eqn:Hi.
  - by apply map_lookup_filter_Some.
  - apply map_lookup_filter_None. by left.
Qed.

(** A miss is a requested key that the call did not find in the cache. *)
Lemma elem_of_misses (users : list user) (force_refresh : bool) (w : world)
    (k v : string) :
  (k, v) ∈ misses users force_refresh w ↔
  data_of users w !! k = Some v ∧ cache_hits users force_refresh w !! k = None.
Proof.
  unfold misses. rewrite list_elem_of_filter, elem_of_map_to_list. simpl.
  rewrite not_elem_of_dom. tauto.
Qed.

(** When every requested key is cached and the cache is read, there is no
    miss. *)
Lemma all_cached_misses (users : list user) (w : world) :
  all_cached users w → misses users false w = [].
Proof.
  intros Hall. unfold all_cached in Hall. rewrite Forall_forall in Hall.
  destruct (misses users false w) as [|[k v] ms] eqn:Hms; [done|].
  assert ((k, v) ∈ misses users false w) as Hin by (rewrite Hms; left).
  apply elem_of_misses in Hin as [Hd Hhit].
  rewrite cache_hits_lookup in Hhit; [|done|apply elem_of_dom; by eexists].
  apply data_of_lookup in Hd as (u & Hu & -> & Hr).
  destruct (Hall u Hu) as [i Hi]; [by eexists|]. congruence.
Qed.

(** The remote lookups of a call: the groups of the missed IDs, in order,
    all of them when the call returns. *)
Lemma get_users_info_dict_lookups (users : list user) (force_refresh : bool)
    (w : world) :
  ∃ k, lookups (events_of (get_users_info_dict users force_refresh w))
       = take k (chunk (missed_ids users force_refresh w) 100)
     ∧ (chunk (missed_ids users force_refresh w) 100 ≠ [] → 0 < k)
     ∧ (∀ m, result_of (get_users_info_dict users force_refresh w) = Return m →
             length (chunk (missed_ids users force_refresh w) 100) ≤ k).
Proof.
  destruct (decide (Forall (known (reverse_of (data_of users w)))
                      (fetched users force_refresh w))) as [Hok|Hbad].
  - destruct (misses users force_refresh w) as [|m ms] eqn:Hms.
    + destruct (get_users_info_dict_cached users force_refresh w Hms)
        as (c & ev1 & (Hl & _) & ->).
      exists 0. unfold missed_ids. rewrite Hms. unfold events_of. simpl.
      rewrite lookups_app, Hl.
      by destruct (cache_read_quiet users force_refresh w) as (-> & _).
    + destruct (get_users_info_dict_ok users force_refresh w)
        as (c & ev1 & seen & (Hl & _) & _ & ->); [by rewrite Hms|done|].
      exists (length (chunk (missed_ids users force_refresh w) 100)).
      unfold events_of. cbn [snd]. rewrite !lookups_app, Hl, lookups_UsersLookup.
      destruct (cache_read_quiet users force_refresh w) as (-> & _).
      destruct (inaccessible_log_quiet
                  (questionable_from w
                     (chunk (missed_ids users force_refresh w) 100)))
        as (-> & _).
      simpl. rewrite app_nil_r, firstn_all. split; [done|]. split; [|done].
      intros Hne. destruct (chunk _ _); [done|simpl; lia].
  - destruct (get_users_info_dict_bad users force_refresh w Hbad)
      as (c & ev1 & key & k & (Hl & _) & Hk & ->).
    exists k. unfold events_of, result_of. cbn [fst snd].
    rewrite !lookups_app, Hl, lookups_UsersLookup.
    destruct (cache_read_quiet users force_refresh w) as (-> & _).
    simpl. split; [done|]. split; [lia|done].
Qed.

(** ** Cache writes of the first loop *)

Lemma add_user_cache_sets (u : user) (d : gmap string string) (w : world)
    (k v : string) :
  (k, v) ∈ cache_sets (events_of (add_user u d w)) →
  k = get_user_cache_key u "social-id".
Proof.
  unfold add_user, try_except, bind, events_of. rewrite get_user_id_run. simpl.
  destruct (cache_social_id w !! _).
  { simpl. intros H. by apply elem_of_nil in H. }
  destruct (social_auth_all w u) as [|sa ?].
  { simpl. intros H. by apply elem_of_nil in H. }
  destruct (decide _); simpl; intros H.
  - by apply list_elem_of_singleton in H as [= -> _].
  - by apply elem_of_nil in H.
Qed.

Lemma for_each_add_user_cache_sets (users : list user) :
  ∀ (d : gmap string string) (w : world) (k v : string),
  (k, v) ∈ cache_sets (events_of (for_each add_user users d w)) →
  ∃ u, u ∈ users ∧ k = get_user_cache_key u "social-id".
Proof.
  induction users as [|u users IH]; intros d w k v Hin.
  { by apply elem_of_nil in Hin. }
  simpl in Hin. pose proof (add_user_cache_sets u d w k v) as Hu.
  destruct (add_user_spec u d w) as (c1 & ev1 & Hrun & _).
  rewrite (bind_Return_eq _ _ _ _ _ _ Hrun) in Hin. rewrite Hrun in Hu.
  specialize (IH (add_entry w u d) (with_cache_social_id c1 w) k v).
  destruct (for_each add_user users _ _) as [[r w'] ev'].
  rewrite prepend_eq in Hin. unfold events_of, cache_sets in *. simpl in *.
  rewrite omap_app in Hin. apply elem_of_app in Hin as [Hin|Hin].
  - exists u. split; [left|by apply Hu].
  - destruct (IH Hin) as (u' & Hu' & ->). exists u'. split; [by right|done].
Qed.

(** ** What a call reads and whom it looks up *)

Lemma get_manys_UsersLookup (gs : list (list string)) :
  get_manys (UsersLookup <$> gs) = [].
Proof. by destruct (no_lookups_quiet gs) as (-> & _). Qed.

Lemma get_users_info_dict_get_manys (users : list user) (force_refresh : bool)
    (w : world) :
  get_manys (events_of (get_users_info_dict users force_refresh w))
  = get_manys (cache_read users force_refresh w).
Proof.
  destruct (decide (Forall (known (reverse_of (data_of users w)))
                      (fetched users force_refresh w))) as [Hok|Hbad].
  - destruct (misses users force_refresh w) as [|m ms] eqn:Hms.
    + destruct (get_users_info_dict_cached users force_refresh w Hms)
        as (c & ev1 & (_ & Hg & _) & ->).
      unfold events_of, get_manys in *. cbn [snd].
      by rewrite omap_app, Hg.
    + destruct (get_users_info_dict_ok users force_refresh w)
        as (c & ev1 & seen & (_ & Hg & _) & _ & ->); [by rewrite Hms|done|].
      destruct (inaccessible_log_quiet
                  (questionable_from w
                     (chunk (missed_ids users force_refresh w) 100)))
        as (_ & _ & _ & Hi).
      pose proof (get_manys_UsersLookup
                    (chunk (missed_ids users force_refresh w) 100)) as Hl.
      unfold events_of, get_manys in *. cbn [snd].
      rewrite !omap_app, Hg, Hl, Hi. simpl. by rewrite app_nil_r.
  - destruct (get_users_info_dict_bad users force_refresh w Hbad)
      as (c & ev1 & key & k & (_ & Hg & _) & Hk & ->).
    pose proof (get_manys_UsersLookup
                  (take k (chunk (missed_ids users force_refresh w) 100))) as Hl.
    unfold events_of, get_manys in *. cbn [snd].
    rewrite !omap_app, Hg, Hl. simpl. by rewrite app_nil_r.
Qed.

(** Every ID sent to the remote API is the remote ID of a miss. *)
Lemma lookups_are_misses (users : list user) (force_refresh : bool) (w : world)
    (g : list string) (user_id : string) :
  g ∈ lookups (events_of (get_users_info_dict users force_refresh w)) →
  user_id ∈ g →
  ∃ key, data_of users w !! key = Some user_id
         ∧ cache_hits users force_refresh w !! key = None.
Proof.
  intros Hg Hid.
  destruct (get_users_info_dict_lookups users force_refresh w) as (k & Hl & _).
  rewrite Hl in Hg. apply subseteq_take in Hg.
  assert (user_id ∈ mjoin (chunk (missed_ids users force_refresh w) 100)) as Hj.
  { apply list_elem_of_join. by exists g. }
  rewrite chunk_join in Hj by lia.
  apply list_elem_of_fmap in Hj as ([key v] & -> & Hin).
  exists key. by apply elem_of_misses.
Qed.

(** ** Claims *)

(** C3. With [force_refresh=false], when the [:info] key of every requested
    user is in the cache, the call issues no remote lookup. *)
Theorem cached_users_need_no_lookup (users : list user) (w : world) :
  all_cached users w →
  lookups (events_of (get_users_info users false w)) = [].
Proof.
  intros Hall. rewrite get_users_info_eq. unfold events_of at 1. cbn [snd].
  destruct (get_users_info_dict_lookups users false w) as (k & -> & _).
  unfold missed_ids. rewrite (all_cached_misses users w Hall). by destruct k.
Qed.

(** C10 (amended). With [force_refresh=false] and every requested key in
    the cache, the call makes no batched cache write and no database
    update: the [:info] entries of the cache and the [User] rows are left
    as they were. Its only cache writes are the [:social-id] entries that
    [get_user_id] stores for the requested users. *)
Theorem cached_users_frame (users : list user) (w : world) :
  all_cached users w →
  set_manys (events_of (get_users_info users false w)) = []
  ∧ db_updates (events_of (get_users_info users false w)) = []
  ∧ cache_info (world_of (get_users_info users false w)) = cache_info w
  ∧ users_table (world_of (get_users_info users false w)) = users_table w
  ∧ ∀ k v, (k, v) ∈ cache_sets (events_of (get_users_info users false w)) →
           ∃ u, u ∈ users ∧ k = get_user_cache_key u "social-id".
Proof.
  intros Hall. rewrite get_users_info_eq.
  unfold events_of at 1 2 3, world_of at 1 2. cbn [fst snd].
  pose proof (all_cached_misses users w Hall) as Hm.
  destruct (get_users_info_dict_run users false w)
    as (c & ev1 & Hrun & (_ & _ & Hs & Hd) & ->).
  rewrite Hm, prepend_eq, app_nil_r. unfold events_of, world_of. cbn [fst snd].
  destruct (cache_read_quiet users false w) as (_ & Hs' & Hd' & Hc').
  unfold set_manys, db_updates, cache_sets in *. rewrite !omap_app.
  rewrite Hs, Hs', Hd, Hd', Hc', app_nil_r.
  split_and!; [done..|].
  intros k v Hin. rewrite app_nil_r in Hin.
  apply (for_each_add_user_cache_sets users ∅ w k v).
  by rewrite Hrun.
Qed.

(** C2. A forced refresh of more than 6000 keyed users is the call without
    the forced refresh: the cache is read in one batch for the requested
    keys, and every ID sent to the remote API is the remote ID of a
    requested key that the cache does not hold. *)
Theorem force_refresh_ignored_above_cap (users : list user) (w : world) :
  (6000 < Z.of_nat (size (data_of users w)))%Z →
  get_users_info users true w = get_users_info users false w
  ∧ get_manys (events_of (get_users_info users true w))
    = [(map_to_list (data_of users w)).*1]
  ∧ ∀ g user_id,
      g ∈ lookups (events_of (get_users_info users true w)) → user_id ∈ g →
      ∃ key, data_of users w !! key = Some user_id
             ∧ cache_info w !! key = None.
Proof.
  intros Hcap.
  assert (consults_cache users true w = true) as Hc.
  { unfold consults_cache. by rewrite bool_decide_eq_true_2. }
  assert (get_users_info_dict users true w = get_users_info_dict users false w)
    as Heq.
  { destruct (get_users_info_dict_run users true w) as (c & ev1 & Hrun & _ & ->).
    destruct (get_users_info_dict_run users false w)
      as (c' & ev1' & Hrun' & _ & ->).
    rewrite Hrun in Hrun'. injection Hrun' as <- <-.
    unfold misses, cache_hits, cache_read. by rewrite Hc. }
  split; [|split].
  - by rewrite !get_users_info_eq, Heq.
  - rewrite get_users_info_eq. unfold events_of at 1. cbn [snd].
    rewrite get_users_info_dict_get_manys. unfold cache_read. by rewrite Hc.
  - rewrite get_users_info_eq. unfold events_of at 1. cbn [snd].
    intros g user_id Hg Hid.
    destruct (lookups_are_misses users true w g user_id Hg Hid)
      as (key & Hd & Hh).
    exists key. split; [done|].
    rewrite cache_hits_lookup in Hh; [done..|]. apply elem_of_dom. by eexists.
Qed.

(** C5. No remote lookup call carries more than 100 IDs. *)
Theorem lookup_groups_at_most_100 (users : list user) (force_refresh : bool)
    (w : world) (g : list string) :
  g ∈ lookups (events_of (get_users_info users force_refresh w)) →
  length g ≤ 100.
Proof.
  rewrite get_users_info_eq. unfold events_of at 1. cbn [snd]. intros Hg.
  destruct (get_users_info_dict_lookups users force_refresh w) as (k & Hl & _).
  rewrite Hl in Hg. apply subseteq_take in Hg.
  pose proof (chunk_length (missed_ids users force_refresh w) 100) as Hlen.
  rewrite Forall_forall in Hlen. by apply Hlen.
Qed.

Lemma list_singleton_char {A} (l : list A) (a : A) :
  NoDup l → (∀ x, x ∈ l ↔ x = a) → l = [a].
Proof.
  intros Hnd Hl. destruct l as [|x [|y l]].
  - assert (a ∈ @nil A) as H by by apply Hl. by apply elem_of_nil in H.
  - f_equal. apply Hl. left.
  - assert (x = a) as -> by (apply Hl; left).
    assert (y = a) as -> by (apply Hl; right; left).
    apply NoDup_cons in Hnd as [Hnin _]. destruct Hnin. left.
Qed.

Lemma misses_NoDup (users : list user) (force_refresh : bool) (w : world) :
  NoDup (misses users force_refresh w).
Proof. apply NoDup_filter, NoDup_map_to_list. Qed.

(** C6. For two users A and B, A's info cached and B's not, the call
    without forced refresh issues exactly one remote lookup, for B's remote
    ID alone. *)
Theorem one_lookup_for_the_uncached_user (A B : user) (w : world)
    (info_A : info) (id_B : string) :
  cache_info w !! get_user_cache_key A "info" = Some info_A →
  cache_info w !! get_user_cache_key B "info" = None →
  remote_id w B = Some id_B →
  lookups (events_of (get_users_info [A; B] false w)) = [[id_B]].
Proof.
  intros HA HB Hid.
  assert (data_of [A; B] w !! get_user_cache_key B "info" = Some id_B) as HdB.
  { rewrite data_of_eq. simpl. unfold add_entry at 1. rewrite Hid.
    apply lookup_insert_eq. }
  assert (misses [A; B] false w = [(get_user_cache_key B "info", id_B)]) as Hm.
  { apply list_singleton_char; [apply misses_NoDup|]. intros [k v].
    rewrite elem_of_misses. split.
    - intros [Hd Hh].
      rewrite cache_hits_lookup in Hh; [|done|apply elem_of_dom; by eexists].
      apply data_of_lookup in Hd as (u & Hu & -> & Hr).
      apply elem_of_cons in Hu as [->|Hu]; [congruence|].
      apply list_elem_of_singleton in Hu as ->. congruence.
    - intros [= -> ->]. split; [done|].
      rewrite cache_hits_lookup; [done..|]. apply elem_of_dom. by eexists. }
  rewrite get_users_info_eq. unfold events_of at 1. cbn [snd].
  destruct (get_users_info_dict_lookups [A; B] false w) as (k & -> & Hk & _).
  unfold missed_ids in *. rewrite Hm in *.
  change (chunk [(get_user_cache_key B "info", id_B)].*2 100) with [[id_B]] in *.
  destruct k as [|k]; [|by destruct k].
  assert (0 < 0) by by apply Hk. lia.
Qed.

(** ** Skipped users *)

Lemma for_each_app {A S} (body : A → S → M S) (l1 l2 : list A) (s : S)
    (w : world) :
  for_each body (l1 ++ l2) s w
  = bind (for_each body l1 s) (for_each body l2) w.
Proof.
  revert s w. induction l1 as [|x l1 IH]; intros s w.
  - rewrite app_nil_l. erewrite bind_Return_eq by done.
    by destruct (for_each body l2 s w) as [[??]?].
  - rewrite <-app_comm_cons.
    change (for_each body (x :: ?l) s) with (bind (body x s) (for_each body l)).
    destruct (body x s w) as [[[s1|e] w1] e1] eqn:Hx.
    + rewrite !(bind_Return_eq _ _ _ _ _ _ Hx), IH.
      destruct (for_each body l1 s1 w1) as [[[s2|e] w2] e2] eqn:H1.
      * rewrite !(bind_Return_eq _ _ _ _ _ _ H1).
        erewrite (bind_Return_eq (bind _ _)).
        2:{ rewrite (bind_Return_eq _ _ _ _ _ _ Hx), H1. apply prepend_eq. }
        destruct (for_each body l2 s2 w2) as [[r3 w3] e3].
        by rewrite !prepend_eq, app_assoc.
      * rewrite (bind_Raise _ _ _ _ _ _ H1).
        erewrite (bind_Raise (bind _ _)); [done|].
        rewrite (bind_Return_eq _ _ _ _ _ _ Hx), H1. apply prepend_eq.
    + rewrite (bind_Raise _ _ _ _ _ _ Hx).
      erewrite (bind_Raise (bind _ _)); [done|].
      by rewrite (bind_Raise _ _ _ _ _ _ Hx).
Qed.

(** A user for whom [get_user_id] raises is logged and leaves [data] and
    the world as they are. *)
Lemma add_user_skip (u : user) (d : gmap string string) (w : world)
    (msg : string) :
  result_of (get_user_id u w) = Raise (SocialMediaException msg) →
  add_user u d w
  = (Return d, w, [CacheGet (get_user_cache_key u "social-id"); LogWarning msg]).
Proof.
  unfold add_user, try_except, bind, result_of. rewrite get_user_id_run. simpl.
  destruct (cache_social_id w !! _); [done|].
  destruct (social_auth_all w u) as [|sa ?]; simpl.
  - by intros [= <-].
  - destruct (decide _); simpl; [done|]. by intros [= <-].
Qed.

Lemma get_user_id_raise_stable (u : user) (w : world) (c : gmap string string)
    (msg : string) :
  (∀ u', remote_id (with_cache_social_id c w) u' = remote_id w u') →
  result_of (get_user_id u w) = Raise (SocialMediaException msg) →
  result_of (get_user_id u (with_cache_social_id c w))
  = Raise (SocialMediaException msg).
Proof.
  intros Hs Hr. specialize (Hs u). rewrite !remote_id_eq in Hs.
  revert Hr Hs. unfold result_of. rewrite !get_user_id_run. simpl.
  change (social_auth_all (with_cache_social_id c w) u)
    with (social_auth_all w u).
  destruct (cache_social_id w !! _); [done|].
  destruct (c !! _).
  { destruct (social_auth_all w u) as [|sa ?]; [done|].
    by destruct (decide _). }
  destruct (social_auth_all w u) as [|sa ?]; [done|].
  by destruct (decide _).
Qed.

Lemma bind_bind_Return {A B C} (m : M A) (k : A → M B) (r : B → M C)
    (w w1 : world) (a : A) (e1 : list event) :
  m w = (Return a, w1, e1) →
  bind (bind m k) r w = prepend e1 (bind (k a) r w1).
Proof.
  intros Hm. unfold bind at 1 2. rewrite Hm. unfold bind.
  destruct (k a w1) as [[[b|x] w2] e2]; [|done].
  destruct (r b w2) as [[r3 w3] e3]. by rewrite prepend_eq, app_assoc.
Qed.

(** Two user lists that leave the first loop with the same [data] and the
    same world make the same call, up to the trace of the first loop. *)
Lemma get_users_info_after_first_loop (users users' : list user)
    (force_refresh : bool) (w w1 : world) (d : gmap string string)
    (ev ev' : list event) :
  for_each add_user users ∅ w = (Return d, w1, ev) →
  for_each add_user users' ∅ w = (Return d, w1, ev') →
  ∃ r w' e,
    get_users_info users force_refresh w = (r, w', ev ++ e)
    ∧ get_users_info users' force_refresh w = (r, w', ev' ++ e).
Proof.
  intros Hrun Hrun'. unfold get_users_info, get_users_info_dict.
  rewrite (bind_bind_Return _ _ _ _ _ _ _ Hrun).
  rewrite (bind_bind_Return _ _ _ _ _ _ _ Hrun').
  match goal with |- context [prepend ev ?X] => destruct X as [[r w'] e] end.
  by exists r, w', e.
Qed.

(** C8. A user for whom the not-connected condition is raised is skipped:
    the exception is logged as a warning, and the call returns what it
    returns without that user, in the same final state; the trace differs
    by the failed derivation and its warning only, and the user has no
    entry in [data]. *)
Theorem not_connected_user_is_skipped (before after : list user) (u : user)
    (force_refresh : bool) (w : world) (msg : string) :
  result_of (get_user_id u w) = Raise (SocialMediaException msg) →
  result_of (get_users_info (before ++ u :: after) force_refresh w)
  = result_of (get_users_info (before ++ after) force_refresh w)
  ∧ world_of (get_users_info (before ++ u :: after) force_refresh w)
    = world_of (get_users_info (before ++ after) force_refresh w)
  ∧ (∃ e,
       events_of (get_users_info (before ++ after) force_refresh w)
       = events_of (for_each add_user before ∅ w) ++ e
       ∧ events_of (get_users_info (before ++ u :: after) force_refresh w)
         = events_of (for_each add_user before ∅ w)
           ++ [CacheGet (get_user_cache_key u "social-id"); LogWarning msg]
           ++ e)
  ∧ data_of (before ++ u :: after) w !! get_user_cache_key u "info" = None.
Proof.
  intros Hraise.
  assert (remote_id w u = None) as Hnone by (unfold remote_id; by rewrite Hraise).
  destruct (for_each_add_user_spec before ∅ w) as (c1 & e1 & Hrun1 & _ & Hs1).
  pose proof (add_user_skip u
                (foldl (λ d u0, add_entry w u0 d) ∅ before)
                (with_cache_social_id c1 w) msg
                (get_user_id_raise_stable u w c1 msg Hs1 Hraise)) as Hskip.
  destruct (for_each_add_user_spec after
              (foldl (λ d u0, add_entry w u0 d) ∅ before)
              (with_cache_social_id c1 w)) as (c2 & e2 & Hrun2 & _ & _).
  assert (for_each add_user (before ++ after) ∅ w
          = (Return (foldl (λ d u0, add_entry (with_cache_social_id c1 w) u0 d)
                       (foldl (λ d u0, add_entry w u0 d) ∅ before) after),
             with_cache_social_id c2 (with_cache_social_id c1 w), e1 ++ e2))
    as Hwithout.
  { rewrite for_each_app, (bind_Return_eq _ _ _ _ _ _ Hrun1), Hrun2.
    by rewrite prepend_eq. }
  assert (for_each add_user (before ++ u :: after) ∅ w
          = (Return (foldl (λ d u0, add_entry (with_cache_social_id c1 w) u0 d)
                       (foldl (λ d u0, add_entry w u0 d) ∅ before) after),
             with_cache_social_id c2 (with_cache_social_id c1 w),
             e1 ++ [CacheGet (get_user_cache_key u "social-id"); LogWarning msg]
             ++ e2))
    as Hwith.
  { rewrite for_each_app, (bind_Return_eq _ _ _ _ _ _ Hrun1).
    change (for_each add_user (u :: after)
              (foldl (λ d u0, add_entry w u0 d) ∅ before)
              (with_cache_social_id c1 w))
      with (bind (add_user u (foldl (λ d u0, add_entry w u0 d) ∅ before))
              (for_each add_user after) (with_cache_social_id c1 w)).
    rewrite (bind_Return_eq _ _ _ _ _ _ Hskip), Hrun2.
    by rewrite !prepend_eq. }
  destruct (get_users_info_after_first_loop _ _ force_refresh _ _ _ _ _
              Hwith Hwithout) as (r & w' & e & -> & ->).
  rewrite Hrun1. unfold result_of, world_of, events_of. cbn [fst snd].
  split_and!; [done|done| |by apply data_of_not_connected].
  exists (e2 ++ e). by rewrite <-!app_assoc.
Qed.

(** ** What is stored and what is returned *)

Lemma store_foldl_elem rd (l : list info) (acc : gmap string info)
    (k : string) (i : info) :
  foldl (store rd) acc l !! k = Some i →
  acc !! k = Some i ∨ (i ∈ l ∧ rd !! pretty (info_id i) = Some k).
Proof.
  revert acc. induction l as [|j l IH]; intros acc H; [by left|].
  simpl in H. apply IH in H as [H|[Hin Hk]]; [|right; split; [by right|done]].
  unfold store in H. destruct (rd !! pretty (info_id j)) as [kj|] eqn:Hj;
    [|by left].
  destruct (decide (kj = k)) as [->|Hne].
  - rewrite lookup_insert_eq in H. injection H as ->. right. split; [left|done].
  - rewrite lookup_insert_ne in H by done. by left.
Qed.

Lemma store_foldl_keeps rd (l : list info) (acc : gmap string info)
    (k : string) :
  is_Some (acc !! k) → is_Some (foldl (store rd) acc l !! k).
Proof.
  revert acc. induction l as [|j l IH]; intros acc H; [done|].
  simpl. apply IH. unfold store. destruct (rd !! pretty (info_id j)) as [kj|];
    [|done].
  rewrite lookup_insert_is_Some. destruct (decide (kj = k)); auto.
Qed.

Lemma store_foldl_is_Some rd (l : list info) (acc : gmap string info)
    (k : string) (i : info) :
  i ∈ l → rd !! pretty (info_id i) = Some k →
  is_Some (foldl (store rd) acc l !! k).
Proof.
  revert acc. induction l as [|j l IH]; intros acc Hin Hk.
  { by apply elem_of_nil in Hin. }
  apply elem_of_cons in Hin as [<-|Hin]; [|by apply IH].
  simpl. apply store_foldl_keeps. unfold store. rewrite Hk.
  rewrite lookup_insert_eq. by eexists.
Qed.

Lemma fetched_no_miss (users : list user) (force_refresh : bool) (w : world) :
  misses users force_refresh w = [] → fetched users force_refresh w = [].
Proof. unfold fetched, missed_ids. by intros ->. Qed.

Lemma newly_fetched_no_miss (users : list user) (force_refresh : bool)
    (w : world) :
  misses users force_refresh w = [] → newly_fetched users force_refresh w = ∅.
Proof. intros Hm. unfold newly_fetched. by rewrite fetched_no_miss. Qed.

(** A newly fetched entry is a returned profile, stored under the [:info]
    key of a requested user whose remote ID is the profile's ID. *)
Lemma newly_fetched_lookup (users : list user) (force_refresh : bool)
    (w : world) (k : string) (i : info) :
  newly_fetched users force_refresh w !! k = Some i →
  i ∈ fetched users force_refresh w
  ∧ ∃ u, u ∈ users ∧ k = get_user_cache_key u "info"
         ∧ remote_id w u = Some (pretty (info_id i)).
Proof.
  intros H. apply store_foldl_elem in H as [H|[Hin Hk]]; [done|].
  split; [done|]. apply reverse_of_lookup in Hk. by apply data_of_lookup in Hk.
Qed.

(** Every returned profile with a requested ID has an entry, and the entry
    carries the same ID. *)
Lemma newly_fetched_covers (users : list user) (force_refresh : bool)
    (w : world) (i : info) :
  i ∈ fetched users force_refresh w →
  known (reverse_of (data_of users w)) i →
  ∃ k i', reverse_of (data_of users w) !! pretty (info_id i) = Some k
          ∧ newly_fetched users force_refresh w !! k = Some i'
          ∧ info_id i' = info_id i.
Proof.
  intros Hin [k Hk].
  destruct (store_foldl_is_Some (reverse_of (data_of users w))
              (fetched users force_refresh w) ∅ k i Hin Hk) as [i' Hi'].
  exists k, i'. split; [done|]. split; [done|].
  apply store_foldl_elem in Hi' as [Hi'|[_ Hk']]; [done|].
  apply reverse_of_lookup in Hk, Hk'. rewrite Hk in Hk'.
  injection Hk' as Hk'. symmetry. by apply (inj pretty) in Hk'.
Qed.

(** A call that returns has stored only profiles with requested IDs. *)
Lemma get_users_info_dict_Return (users : list user) (force_refresh : bool)
    (w : world) (m : gmap string info) :
  result_of (get_users_info_dict users force_refresh w) = Return m →
  Forall (known (reverse_of (data_of users w))) (fetched users force_refresh w)
  ∧ m = newly_fetched users force_refresh w ∪ cache_hits users force_refresh w.
Proof.
  intros Hr.
  destruct (decide (Forall (known (reverse_of (data_of users w)))
                      (fetched users force_refresh w))) as [Hok|Hbad].
  - split; [done|].
    destruct (misses users force_refresh w) as [|x ms] eqn:Hms.
    + destruct (get_users_info_dict_cached users force_refresh w Hms)
        as (c & ev1 & _ & Hrun).
      rewrite Hrun in Hr. injection Hr as <-.
      by rewrite newly_fetched_no_miss, (left_id_L ∅ (∪)).
    + destruct (get_users_info_dict_ok users force_refresh w)
        as (c & ev1 & seen & _ & _ & Hrun); [by rewrite Hms|done|].
      rewrite Hrun in Hr. by injection Hr as <-.
  - destruct (get_users_info_dict_bad users force_refresh w Hbad)
      as (c & ev1 & key & k & _ & _ & Hrun).
    by rewrite Hrun in Hr.
Qed.

Lemma get_users_info_Return (users : list user) (force_refresh : bool)
    (w : world) (vs : list info) :
  result_of (get_users_info users force_refresh w) = Return vs →
  ∃ m, result_of (get_users_info_dict users force_refresh w) = Return m
       ∧ vs = (map_to_list m).*2.
Proof.
  rewrite get_users_info_eq. unfold result_of at 1. cbn [fst].
  destruct (result_of (get_users_info_dict users force_refresh w)) as [m|e];
    [|done].
  intros [= <-]. by exists m.
Qed.

(** C7. The returned collection is the union of the cache hits of the
    requested users and of the entries newly fetched in the call (a newly
    fetched entry replacing a hit under the same key), and holds nothing
    else: each returned profile came from the remote API in this call or
    was cached under the [:info] key of a requested user. *)
Theorem returned_is_hits_and_fetched (users : list user) (force_refresh : bool)
    (w : world) (vs : list info) :
  result_of (get_users_info users force_refresh w) = Return vs →
  vs = (map_to_list (newly_fetched users force_refresh w
                     ∪ cache_hits users force_refresh w)).*2
  ∧ ∀ i, i ∈ vs →
         i ∈ fetched users force_refresh w
         ∨ ∃ u, u ∈ users
                ∧ cache_info w !! get_user_cache_key u "info" = Some i.
Proof.
  intros Hr. apply get_users_info_Return in Hr as (m & Hr & ->).
  apply get_users_info_dict_Return in Hr as [_ ->]. split; [done|].
  intros i Hi. apply list_elem_of_fmap in Hi as ([k i'] & -> & Hi).
  apply elem_of_map_to_list in Hi. simpl.
  apply lookup_union_Some_raw in Hi as [Hi|[_ Hi]].
  - left. by apply newly_fetched_lookup in Hi as [? _].
  - right. unfold cache_hits in Hi.
    destruct (consults_cache users force_refresh w); [|done].
    apply map_lookup_filter_Some in Hi as [Hc Hd]. simpl in Hd.
    apply elem_of_dom in Hd as [v Hd].
    apply data_of_lookup in Hd as (u & Hu & -> & _). by exists u.
Qed.

(** The cache writes and database updates of a call that fetched. *)
Lemma get_users_info_dict_ok_writes (users : list user) (force_refresh : bool)
    (w : world) :
  misses users force_refresh w ≠ [] →
  Forall (known (reverse_of (data_of users w))) (fetched users force_refresh w) →
  ∃ seen,
    last_seen_from w (chunk (missed_ids users force_refresh w) 100) = Some seen
    ∧ set_manys (events_of (get_users_info_dict users force_refresh w))
      = [newly_fetched users force_refresh w]
    ∧ db_updates (events_of (get_users_info_dict users force_refresh w))
      = [(seen, false);
         (list_to_set (questionable_from w
                         (chunk (missed_ids users force_refresh w) 100)), true)]
    ∧ cache_info (world_of (get_users_info_dict users force_refresh w))
      = newly_fetched users force_refresh w ∪ cache_info w
    ∧ users_table (world_of (get_users_info_dict users force_refresh w))
      = set_sm_not_found (social_auth_table w)
          (list_to_set (questionable_from w
                          (chunk (missed_ids users force_refresh w) 100)))
          true
          (set_sm_not_found (social_auth_table w) seen false (users_table w)).
Proof.
  intros Hm Hok.
  destruct (get_users_info_dict_ok users force_refresh w Hm Hok)
    as (c & ev1 & seen & (_ & _ & Hs & Hd) & Hseen & ->).
  exists seen. split; [done|].
  destruct (cache_read_quiet users force_refresh w) as (_ & Hs1 & Hd1 & _).
  destruct (no_lookups_quiet (chunk (missed_ids users force_refresh w) 100))
    as (_ & Hs2 & Hd2).
  destruct (inaccessible_log_quiet
              (questionable_from w
                 (chunk (missed_ids users force_refresh w) 100)))
    as (_ & Hs3 & Hd3 & _).
  unfold events_of, world_of, set_manys, db_updates in *. cbn [fst snd].
  rewrite !omap_app, Hs, Hs1, Hs2, Hs3, Hd, Hd1, Hd2, Hd3. done.
Qed.

(** C9. The entries newly fetched in a call are written to the cache by one
    batched [set_many], each under the [:info] key of the requested user
    whose remote ID is the profile's ID; after the call the cache holds
    every one of them, and every profile the remote returned is represented
    by the entry for its ID. Without a miss nothing is fetched and nothing
    is written. *)
Theorem fetched_entries_are_cached (users : list user) (force_refresh : bool)
    (w : world) (vs : list info) :
  result_of (get_users_info users force_refresh w) = Return vs →
  (set_manys (events_of (get_users_info users force_refresh w))
   = [newly_fetched users force_refresh w]
   ∨ (set_manys (events_of (get_users_info users force_refresh w)) = []
      ∧ fetched users force_refresh w = []))
  ∧ (∀ k i, newly_fetched users force_refresh w !! k = Some i →
       cache_info (world_of (get_users_info users force_refresh w)) !! k
       = Some i
       ∧ ∃ u, u ∈ users ∧ k = get_user_cache_key u "info"
              ∧ remote_id w u = Some (pretty (info_id i)))
  ∧ (∀ i, i ∈ fetched users force_refresh w →
       ∃ k i', newly_fetched users force_refresh w !! k = Some i'
               ∧ info_id i' = info_id i).
Proof.
  intros Hr. apply get_users_info_Return in Hr as (m & Hr & _).
  apply get_users_info_dict_Return in Hr as [Hok _].
  rewrite events_of_get_users_info, world_of_get_users_info. split_and!.
  - destruct (misses users force_refresh w) as [|x ms] eqn:Hms.
    + right. split; [|by apply fetched_no_miss].
      destruct (get_users_info_dict_cached users force_refresh w Hms)
        as (c & ev1 & (_ & _ & Hs & _) & ->).
      destruct (cache_read_quiet users force_refresh w) as (_ & Hs1 & _).
      unfold events_of, set_manys in *. cbn [snd]. by rewrite omap_app, Hs, Hs1.
    + left.
      destruct (get_users_info_dict_ok_writes users force_refresh w)
        as (seen & _ & Hs & _); [by rewrite Hms|done|done].
  - intros k i Hi. split; [|by apply newly_fetched_lookup in Hi as [_ ?]].
    destruct (misses users force_refresh w) as [|x ms] eqn:Hms.
    + by rewrite newly_fetched_no_miss in Hi.
    + destruct (get_users_info_dict_ok_writes users force_refresh w)
        as (seen & _ & _ & _ & -> & _); [by rewrite Hms|done|].
      by apply lookup_union_Some_l.
  - intros i Hi. rewrite Forall_forall in Hok.
    destruct (newly_fetched_covers users force_refresh w i Hi (Hok i Hi))
      as (k & i' & _ & Hk & Hid).
    by exists k, i'.
Qed.

(** ** Failed lookups and the found status *)

(** Every member of a group whose lookup failed is questionable. *)
Lemma questionable_from_failed (groups : list (list string)) :
  ∀ (w : world) (n : nat) (g : list string),
  groups !! n = Some g → bulk_of w n g = [] →
  g ⊆ questionable_from w groups.
Proof.
  induction groups as [|g0 groups IH]; intros w n g Hn Hb; [done|].
  rewrite questionable_from_cons. destruct n as [|n]; simpl in Hn.
  - injection Hn as ->. rewrite Hb. intros x Hx.
    apply elem_of_app. left. apply list_elem_of_filter. split; [|done].
    unfold seen_in. simpl. apply not_elem_of_empty.
  - intros x Hx. apply elem_of_app. right.
    apply (IH (next_call w) n g); [done| |done]. by rewrite bulk_of_next.
Qed.

Lemma uid_in_true (sas : list social_auth) (uids : gset string) (u : user) :
  uid_in sas uids u = true ↔
  ∃ sa, sa ∈ sas ∧ sa_user sa = pk u ∧ sa_uid sa ∈ uids.
Proof.
  unfold uid_in. rewrite existsb_exists. split.
  - intros (sa & Hin & Hb). apply andb_true_iff in Hb as [H1 H2].
    apply bool_decide_eq_true in H1, H2.
    exists sa. by rewrite <-list_elem_of_In in Hin.
  - intros (sa & Hin & H1 & H2). exists sa. rewrite <-list_elem_of_In.
    split; [done|]. by rewrite !bool_decide_eq_true_2.
Qed.

(** After [.update(sm_not_found=flag)] the selected rows carry the flag. *)
Lemma set_sm_not_found_selected (sas : list social_auth) (uids : gset string)
    (flag : bool) (table : list user) (u : user) :
  u ∈ set_sm_not_found sas uids flag table →
  uid_in sas uids u = true → sm_not_found u = flag.
Proof.
  unfold set_sm_not_found. intros Hu Hsel.
  apply list_elem_of_fmap in Hu as (u0 & -> & _).
  destruct (uid_in sas uids u0) eqn:H0; [done|].
  by rewrite H0 in Hsel.
Qed.

(** The transport error never leaves the call. *)
Lemma get_users_info_dict_outcome (users : list user) (force_refresh : bool)
    (w : world) :
  (∃ m, result_of (get_users_info_dict users force_refresh w) = Return m)
  ∨ ∃ key, result_of (get_users_info_dict users force_refresh w)
           = Raise (KeyError key).
Proof.
  destruct (decide (Forall (known (reverse_of (data_of users w)))
                      (fetched users force_refresh w))) as [Hok|Hbad].
  - left. destruct (misses users force_refresh w) as [|x ms] eqn:Hms.
    + destruct (get_users_info_dict_cached users force_refresh w Hms)
        as (c & ev1 & _ & ->). by eexists.
    + destruct (get_users_info_dict_ok users force_refresh w)
        as (c & ev1 & seen & _ & _ & ->); [by rewrite Hms|done|]. by eexists.
  - right. destruct (get_users_info_dict_bad users force_refresh w Hbad)
      as (c & ev1 & key & k & _ & _ & ->). by eexists.
Qed.

(** C4. When the lookup of one group fails with the transport error, the
    error does not leave the call. If the answers to the other groups are
    well formed, the call returns: every group has been looked up, the
    members of the failed group are all in the questionable set of the
    last database update, and the rows linked to them end with
    [sm_not_found = true]. *)
Theorem failed_group_is_questionable (users : list user) (force_refresh : bool)
    (w : world) (n : nat) (g : list string) :
  chunk (missed_ids users force_refresh w) 100 !! n = Some g →
  twitter_api w (twitter_calls w + n) (String.concat "," g) = None →
  result_of (get_users_info users force_refresh w) ≠ Raise TwitterHTTPError
  ∧ (Forall (known (reverse_of (data_of users w)))
       (fetched users force_refresh w) →
     (∃ vs, result_of (get_users_info users force_refresh w) = Return vs)
     ∧ lookups (events_of (get_users_info users force_refresh w))
       = chunk (missed_ids users force_refresh w) 100
     ∧ (∃ q, last (db_updates (events_of (get_users_info users force_refresh w)))
             = Some (q, true)
             ∧ ∀ user_id, user_id ∈ g → user_id ∈ q)
     ∧ ∀ u sa, u ∈ users_table (world_of (get_users_info users force_refresh w)) →
               sa ∈ social_auth_table w → sa_user sa = pk u → sa_uid sa ∈ g →
               sm_not_found u = true).
Proof.
  intros Hn Hfail. split.
  - rewrite get_users_info_eq. unfold result_of at 1. cbn [fst].
    by destruct (get_users_info_dict_outcome users force_refresh w)
      as [[m ->]|[key ->]].
  - intros Hok.
    assert (misses users force_refresh w ≠ []) as Hm.
    { intros Hm. unfold missed_ids in Hn. by rewrite Hm in Hn. }
    assert (g ⊆ questionable_from w (chunk (missed_ids users force_refresh w) 100))
      as Hq.
    { apply (questionable_from_failed _ w n g Hn).
      unfold bulk_of. by rewrite Hfail. }
    destruct (get_users_info_dict_ok_writes users force_refresh w Hm Hok)
      as (seen & _ & _ & Hd & _ & Ht).
    rewrite events_of_get_users_info, world_of_get_users_info, Hd, Ht.
    split_and!.
    + rewrite get_users_info_eq. unfold result_of at 1. cbn [fst].
      destruct (get_users_info_dict_ok users force_refresh w Hm Hok)
        as (c & ev1 & seen' & _ & _ & ->). by eexists.
    + destruct (get_users_info_dict_lookups users force_refresh w)
        as (k & -> & _ & Hk).
      destruct (get_users_info_dict_ok users force_refresh w Hm Hok)
        as (c & ev1 & seen' & _ & _ & Hrun).
      apply take_ge. eapply Hk. by rewrite Hrun.
    + eexists. split; [done|]. intros user_id Hid.
      apply elem_of_list_to_set. by apply Hq.
    + intros u sa Hu Hsa Hpk Hid.
      apply (set_sm_not_found_selected _ _ _ _ _ Hu).
      apply uid_in_true. exists sa. split_and!; [done..|].
      apply elem_of_list_to_set. by apply Hq.
Qed.

(** C1 (the code departs from the claim). 101 users, all flagged not found
    and none cached, all known to the remote: the lookups go out in two
    groups, the profile of user 1 comes back in the first one, and user 1
    is still flagged when the call returns. [seen_ids] is rebound by every
    round of the lookup loop, so only the last group has its flags
    cleared. *)
Theorem found_status_of_earlier_groups_is_kept :
  ∃ vs,
    result_of (get_users_info (users_table (sample_world true 101)) false
                 (sample_world true 101)) = Return vs
    ∧ length <$> lookups (events_of
                (get_users_info (users_table (sample_world true 101)) false
                   (sample_world true 101))) = [100; 1]
    ∧ sample_profile 1 ∈ vs
    ∧ sample_auth 1 ∈ social_auth_table (sample_world true 101)
    ∧ sample_user true 1
      ∈ users_table (world_of
          (get_users_info (users_table (sample_world true 101)) false
             (sample_world true 101))).
Proof.
  eexists. split; [by vm_compute|].
  split; [by vm_compute|].
  split_and!; refine (bool_decide_eq_true_1 _ _); by vm_compute.
Qed.

(** C10, as stated, fails: with the info of the only requested user in the
    cache, the call still writes that user's remote ID to the cache. *)
Lemma cached_users_still_write_social_ids :
  all_cached [sample_user false 1] (first_cached (sample_world false 1))
  ∧ cache_sets (events_of (get_users_info [sample_user false 1] false
                             (first_cached (sample_world false 1))))
    = [("user-1:social-id", "1001")]
  ∧ cache_social_id (world_of (get_users_info [sample_user false 1] false
                                 (first_cached (sample_world false 1))))
    ≠ cache_social_id (first_cached (sample_world false 1)).
Proof.
  split_and!.
  - unfold all_cached. refine (bool_decide_eq_true_1 _ _). by vm_compute.
  - by vm_compute.
  - intros H. apply (f_equal (λ c : gmap string string, c !! "user-1:social-id")) in H.
    by vm_compute in H.
Qed.

(** ** The claims at sample inputs *)

Lemma cached_users_need_no_lookup_witness :
  all_cached [sample_user false 1] (first_cached (sample_world false 1))
  ∧ lookups (events_of (get_users_info [sample_user false 1] false
                          (first_cached (sample_world false 1)))) = [].
Proof.
  assert (all_cached [sample_user false 1]
            (first_cached (sample_world false 1))) as H.
  { unfold all_cached. refine (bool_decide_eq_true_1 _ _).
    vm_compute. reflexivity. }
  split; [exact H|]. exact (cached_users_need_no_lookup _ _ H).
Defined.

Lemma cached_users_frame_witness :
  set_manys (events_of (get_users_info [sample_user false 1] false
                          (first_cached (sample_world false 1)))) = []
  ∧ users_table (world_of (get_users_info [sample_user false 1] false
                             (first_cached (sample_world false 1))))
    = users_table (first_cached (sample_world false 1)).
Proof.
  assert (all_cached [sample_user false 1]
            (first_cached (sample_world false 1))) as H.
  { unfold all_cached. refine (bool_decide_eq_true_1 _ _).
    vm_compute. reflexivity. }
  destruct (cached_users_frame _ _ H) as (Hs & _ & _ & Ht & _).
  split; [exact Hs|exact Ht].
Defined.

Lemma force_refresh_ignored_above_cap_witness :
  (6000 < Z.of_nat (size (data_of many_users many_world)))%Z
  ∧ get_users_info many_users true many_world
    = get_users_info many_users false many_world.
Proof.
  assert (6000 < Z.of_nat (size (data_of many_users many_world)))%Z as H.
  { apply Z.ltb_lt. vm_compute. reflexivity. }
  split; [exact H|].
  exact (proj1 (force_refresh_ignored_above_cap _ _ H)).
Defined.

Lemma lookup_groups_at_most_100_witness :
  ["1001"; "1002"]
  ∈ lookups (events_of (get_users_info (users_table (sample_world false 2))
                          false (sample_world false 2)))
  ∧ length ["1001"; "1002"] ≤ 100.
Proof.
  assert (["1001"; "1002"]
          ∈ lookups (events_of
               (get_users_info (users_table (sample_world false 2))
                  false (sample_world false 2)))) as H.
  { refine (bool_decide_eq_true_1 _ _). vm_compute. reflexivity. }
  split; [exact H|]. exact (lookup_groups_at_most_100 _ _ _ _ H).
Defined.

Lemma one_lookup_for_the_uncached_user_witness :
  lookups (events_of (get_users_info [sample_user false 1; sample_user false 2]
                        false (first_cached (sample_world false 2))))
  = [["1002"]].
Proof.
  apply (one_lookup_for_the_uncached_user (sample_user false 1)
           (sample_user false 2) (first_cached (sample_world false 2))
           (sample_profile 1) "1002").
  - vm_compute. reflexivity.
  - vm_compute. reflexivity.
  - vm_compute. reflexivity.
Defined.

Lemma not_connected_user_is_skipped_witness :
  result_of (get_users_info
               ([sample_user false 1] ++ sample_user false 3
                :: [sample_user false 2]) false (sample_world false 2))
  = result_of (get_users_info ([sample_user false 1] ++ [sample_user false 2])
                 false (sample_world false 2)).
Proof.
  apply (not_connected_user_is_skipped [sample_user false 1]
           [sample_user false 2] (sample_user false 3) false
           (sample_world false 2)
           (msg_not_authenticated (sample_user false 3))).
  vm_compute. reflexivity.
Defined.

Lemma returned_is_hits_and_fetched_witness :
  [sample_profile 1; sample_profile 2]
  = (map_to_list
       (newly_fetched (users_table (sample_world false 2)) false
          (sample_world false 2)
        ∪ cache_hits (users_table (sample_world false 2)) false
            (sample_world false 2))).*2.
Proof.
  apply (returned_is_hits_and_fetched (users_table (sample_world false 2))
           false (sample_world false 2)).
  vm_compute. reflexivity.
Defined.

Lemma fetched_entries_are_cached_witness :
  set_manys (events_of (get_users_info (users_table (sample_world false 2))
                          false (sample_world false 2)))
  = [newly_fetched (users_table (sample_world false 2)) false
       (sample_world false 2)]
  ∨ (set_manys (events_of (get_users_info (users_table (sample_world false 2))
                             false (sample_world false 2))) = []
     ∧ fetched (users_table (sample_world false 2)) false
         (sample_world false 2) = []).
Proof.
  apply (fetched_entries_are_cached (users_table (sample_world false 2))
           false (sample_world false 2)
           [sample_profile 1; sample_profile 2]).
  vm_compute. reflexivity.
Defined.

Lemma failed_group_is_questionable_witness :
  result_of (get_users_info (users_table (cut_off (sample_world false 2)))
               false (cut_off (sample_world false 2)))
  ≠ Raise TwitterHTTPError.
Proof.
  apply (failed_group_is_questionable
           (users_table (cut_off (sample_world false 2))) false
           (cut_off (sample_world false 2)) 0 ["1001"; "1002"]).
  - vm_compute. reflexivity.
  - vm_compute. reflexivity.
Defined.

(** * Further properties *)

(** ** Cache keys *)

Lemma pretty_N_char_no_colon (n : N) :
  Ascii.eqb (pretty_N_char n) ":"%char = false.
Proof. unfold pretty_N_char. by repeat case_match. Qed.

Lemma pretty_N_go_no_colon (x : N) (s : string) :
  no_colon s = true → no_colon (pretty_N_go x s) = true.
Proof.
  revert s. induction (N.lt_wf_0 x) as [x _ IH]; intros s Hs.
  destruct (decide (x = 0)%N) as [->|Hx]; [by rewrite pretty_N_go_0|].
  rewrite pretty_N_go_step by lia. apply IH.
  - apply N.div_lt; lia.
  - simpl. by rewrite pretty_N_char_no_colon.
Qed.

Lemma pretty_Z_no_colon (z : Z) : no_colon (pretty z) = true.
Proof.
  assert (∀ n : N, no_colon (pretty n) = true) as HN.
  { intros n. unfold pretty, pretty_N. destruct (decide (n = 0)%N); [done|].
    by apply pretty_N_go_no_colon. }
  destruct z as [|p|p]; [done|apply (HN (Npos p))|].
  unfold pretty, pretty_Z. rewrite string_app_cons. simpl.
  apply (HN (Npos p)).
Qed.

Lemma split_at_colon (p1 p2 e1 e2 : string) :
  no_colon p1 = true → no_colon p2 = true →
  p1 +:+ String ":" e1 = p2 +:+ String ":" e2 → p1 = p2 ∧ e1 = e2.
Proof.
  revert p2. induction p1 as [|c p1 IH]; intros [|d p2] H1 H2 H.
  - by injection H as ->.
  - rewrite string_app_cons in H. injection H as <- _. by simpl in H2.
  - rewrite string_app_cons in H. injection H as -> _. by simpl in H1.
  - rewrite !string_app_cons in H. injection H as -> H.
    simpl in H1, H2. apply andb_true_iff in H1 as [_ H1], H2 as [_ H2].
    destruct (IH p2 H1 H2 H) as [-> ->]. done.
Qed.

(** X1. A cache key determines the user and the kind of entry: two keys
    are equal only for the same primary key and the same suffix. *)
Theorem cache_key_determines_user_and_kind (u1 u2 : user) (extra1 extra2 : string) :
  get_user_cache_key u1 extra1 = get_user_cache_key u2 extra2 →
  pk u1 = pk u2 ∧ extra1 = extra2.
Proof.
  rewrite !get_user_cache_key_eq. intros H.
  apply (inj (String.app "user-")) in H.
  apply split_at_colon in H as [H ->]; [|apply pretty_Z_no_colon..].
  by apply (inj pretty) in H.
Qed.

Lemma cache_key_determines_user_and_kind_witness :
  pk (sample_user false 1) = pk (sample_user true 1) ∧ "info" = "info".
Proof.
  apply cache_key_determines_user_and_kind. vm_compute. reflexivity.
Defined.

(** ** Deriving the remote ID *)

(** X2. Once [get_user_id] has returned a remote ID, any later call made
    while the cache keeps its entries returns the same ID from the cache:
    it does not read the social-auth table and changes nothing. *)
Theorem get_user_id_answers_from_cache (u : user) (w w2 : world)
    (social_id : string) :
  result_of (get_user_id u w) = Return social_id →
  cache_social_id w2 = cache_social_id (world_of (get_user_id u w)) →
  get_user_id u w2
  = (Return social_id, w2, [CacheGet (get_user_cache_key u "social-id")]).
Proof.
  intros Hr Hc. rewrite (get_user_id_run u w2), Hc. clear Hc. revert Hr.
  unfold result_of, world_of. rewrite (get_user_id_run u w). simpl.
  destruct (cache_social_id w !! _) as [s|] eqn:Hs; simpl.
  { intros [= ->]. by rewrite Hs. }
  destruct (social_auth_all w u) as [|sa ?]; [done|].
  destruct (decide _); [|done]. simpl. intros [= ->].
  by rewrite lookup_insert_eq.
Qed.

Lemma get_user_id_answers_from_cache_witness :
  get_user_id (sample_user false 1)
    (cut_off (world_of (get_user_id (sample_user false 1) (sample_world false 1))))
  = (Return "1001",
     cut_off (world_of (get_user_id (sample_user false 1) (sample_world false 1))),
     [CacheGet (get_user_cache_key (sample_user false 1) "social-id")]).
Proof.
  apply (get_user_id_answers_from_cache (sample_user false 1)
           (sample_world false 1)).
  - vm_compute. reflexivity.
  - reflexivity.
Defined.

(** What [get_user_id] leaves alone, and how it fails. *)
Lemma get_user_id_keeps (u : user) (w : world) :
  cache_info (world_of (get_user_id u w)) = cache_info w
  ∧ users_table (world_of (get_user_id u w)) = users_table w
  ∧ social_auth_table (world_of (get_user_id u w)) = social_auth_table w
  ∧ (∀ e, result_of (get_user_id u w) = Raise e →
          world_of (get_user_id u w) = w
          ∧ ∃ msg, e = SocialMediaException msg).
Proof.
  unfold result_of, world_of. rewrite get_user_id_run. simpl.
  destruct (cache_social_id w !! _) as [s|] eqn:Hs; simpl.
  { by split_and!. }
  destruct (social_auth_all w u) as [|sa ?]; simpl.
  { split_and!; [done..|]. intros e [= <-]. split; [done|by eexists]. }
  destruct (decide _); simpl.
  - by split_and!.
  - split_and!; [done..|]. intros e [= <-]. split; [done|by eexists].
Qed.

(** X3. [get_user_id] writes nothing but the [:social-id] entry of its
    user: the cached profiles, the tables and the other cache entries are
    left as they are. When it raises, it raises [SocialMediaException] and
    the world is unchanged. *)
Theorem get_user_id_frame (u : user) (w : world) :
  cache_info (world_of (get_user_id u w)) = cache_info w
  ∧ users_table (world_of (get_user_id u w)) = users_table w
  ∧ social_auth_table (world_of (get_user_id u w)) = social_auth_table w
  ∧ twitter_calls (world_of (get_user_id u w)) = twitter_calls w
  ∧ (∀ k, k ≠ get_user_cache_key u "social-id" →
          cache_social_id (world_of (get_user_id u w)) !! k
          = cache_social_id w !! k)
  ∧ (∀ e, result_of (get_user_id u w) = Raise e →
          world_of (get_user_id u w) = w
          ∧ ∃ msg, e = SocialMediaException msg).
Proof.
  unfold result_of, world_of. rewrite get_user_id_run. simpl.
  destruct (cache_social_id w !! _) as [s|] eqn:Hs; simpl.
  { by split_and!. }
  destruct (social_auth_all w u) as [|sa ?]; simpl.
  { split_and!; [done..|]. intros e [= <-]. split; [done|by eexists]. }
  destruct (decide _); simpl.
  - split_and!; [done..| |done]. intros k Hk. by rewrite lookup_insert_ne.
  - split_and!; [done..|]. intros e [= <-]. split; [done|by eexists].
Qed.

(** ** The bulk lookup: what it keeps and what it stores *)

Lemma add_user_social_ids (u : user) (d : gmap string string) (w : world) :
  cache_social_id w ⊆ cache_social_id (world_of (add_user u d w)).
Proof.
  unfold add_user, try_except, bind, world_of. rewrite get_user_id_run. simpl.
  destruct (cache_social_id w !! _) as [s|] eqn:Hs; [done|].
  destruct (social_auth_all w u) as [|sa ?]; [done|].
  destruct (decide _); simpl; [|done]. by apply insert_subseteq.
Qed.

Lemma for_each_add_user_social_ids (users : list user) :
  ∀ (d : gmap string string) (w : world),
  cache_social_id w ⊆ cache_social_id (world_of (for_each add_user users d w)).
Proof.
  induction users as [|u users IH]; intros d w; [done|].
  simpl. pose proof (add_user_social_ids u d w) as Hu.
  destruct (add_user_spec u d w) as (c1 & ev1 & Hrun & _).
  rewrite (bind_Return_eq _ _ _ _ _ _ Hrun). rewrite Hrun in Hu.
  specialize (IH (add_entry w u d) (with_cache_social_id c1 w)).
  destruct (for_each add_user users _ _) as [[r w'] ev'].
  rewrite prepend_eq. unfold world_of in *. simpl in *. by etrans.
Qed.

Lemma set_sm_not_found_ids (sas : list social_auth) (uids : gset string)
    (flag : bool) (table : list user) :
  (λ r, (pk r, username r)) <$> set_sm_not_found sas uids flag table
  = (λ r, (pk r, username r)) <$> table.
Proof.
  unfold set_sm_not_found. induction table as [|r table IH]; [done|].
  simpl. f_equal; [by destruct (uid_in sas uids r)|exact IH].
Qed.

(** The world a call ends in, in its three cases. *)
Lemma get_users_info_dict_world (users : list user) (force_refresh : bool)
    (w : world) :
  ∃ c,
    cache_social_id w ⊆ c
    ∧ (∀ u, remote_id (with_cache_social_id c w) u = remote_id w u)
    ∧ ((∃ m, result_of (get_users_info_dict users force_refresh w) = Return m
             ∧ misses users force_refresh w = []
             ∧ world_of (get_users_info_dict users force_refresh w)
               = with_cache_social_id c w)
       ∨ (∃ m seen, result_of (get_users_info_dict users force_refresh w)
                    = Return m
             ∧ misses users force_refresh w ≠ []
             ∧ world_of (get_users_info_dict users force_refresh w)
               = with_users_table
                   (set_sm_not_found (social_auth_table w)
                      (list_to_set
                         (questionable_from w
                            (chunk (missed_ids users force_refresh w) 100)))
                      true
                      (set_sm_not_found (social_auth_table w) seen false
                         (users_table w)))
                   (with_cache_info
                      (newly_fetched users force_refresh w ∪ cache_info w)
                      (with_twitter_calls
                         (twitter_calls w
                          + length (chunk (missed_ids users force_refresh w) 100))
                         (with_cache_social_id c w))))
       ∨ (∃ key k, result_of (get_users_info_dict users force_refresh w)
                   = Raise (KeyError key)
             ∧ ¬ Forall (known (reverse_of (data_of users w)))
                   (fetched users force_refresh w)
             ∧ world_of (get_users_info_dict users force_refresh w)
               = with_twitter_calls (twitter_calls w + k)
                   (with_cache_social_id c w))).
Proof.
  destruct (first_loop_run users w) as (c & ev1 & Hrun & _ & Hstable).
  exists c. split; [|split; [done|]].
  { pose proof (for_each_add_user_social_ids users ∅ w) as H.
    by rewrite Hrun in H. }
  assert (∀ c' ev', for_each add_user users ∅ w
                    = (Return (data_of users w), with_cache_social_id c' w, ev') →
                    c' = c) as Hc.
  { intros c' ev' H. rewrite Hrun in H. by injection H. }
  destruct (decide (Forall (known (reverse_of (data_of users w)))
                      (fetched users force_refresh w))) as [Hok|Hbad].
  - destruct (misses users force_refresh w) as [|x ms] eqn:Hms.
    + left.
      destruct (get_users_info_dict_run users force_refresh w)
        as (c' & ev' & Hrun' & _ & Hdict).
      rewrite (Hc _ _ Hrun') in Hdict.
      rewrite Hms in Hdict.
      rewrite prepend_eq in Hdict.
      rewrite Hdict.
      by eexists.
    + right. left.
      destruct (get_users_info_dict_run users force_refresh w)
        as (c' & ev' & Hrun' & _ & Hdict).
      destruct (fetch_uncached_ok (data_of users w)
                  (cache_hits users force_refresh w)
                  (misses users force_refresh w) (with_cache_social_id c w))
        as (seen & _ & Hfetch); [apply misses_subseteq|by rewrite Hms|done|].
      rewrite (Hc _ _ Hrun'), Hms in Hdict. rewrite <-Hms in Hdict.
      rewrite Hfetch, prepend_eq in Hdict. rewrite Hdict.
      by eexists _, seen.
  - right. right.
    destruct (get_users_info_dict_run users force_refresh w)
      as (c' & ev' & Hrun' & _ & Hdict).
    destruct (fetch_uncached_bad (data_of users w)
                (cache_hits users force_refresh w)
                (misses users force_refresh w) (with_cache_social_id c w))
      as (key & k & _ & Hfetch); [apply misses_subseteq|done|].
    destruct (misses users force_refresh w) as [|x ms] eqn:Hms.
    { destruct Hbad. unfold fetched, missed_ids. rewrite Hms. constructor. }
    rewrite (Hc _ _ Hrun') in Hdict. cbv beta iota in Hdict.
    rewrite Hfetch, prepend_eq in Hdict. rewrite Hdict.
    by exists key, k.
Qed.

Lemma result_of_get_users_info_Raise (users : list user) (force_refresh : bool)
    (w : world) (e : exn) :
  result_of (get_users_info users force_refresh w) = Raise e →
  result_of (get_users_info_dict users force_refresh w) = Raise e.
Proof.
  intros H. rewrite get_users_info_eq in H. unfold result_of at 1 in H.
  cbn [fst] in H.
  destruct (result_of (get_users_info_dict users force_refresh w)) as [m|e0];
    [done|]. by injection H as ->.
Qed.

Lemma events_of_dict_Raise (users : list user) (force_refresh : bool)
    (w : world) (e : exn) :
  result_of (get_users_info_dict users force_refresh w) = Raise e →
  set_manys (events_of (get_users_info_dict users force_refresh w)) = []
  ∧ db_updates (events_of (get_users_info_dict users force_refresh w)) = [].
Proof.
  intros Hr.
  destruct (decide (Forall (known (reverse_of (data_of users w)))
                      (fetched users force_refresh w))) as [Hok|Hbad].
  { destruct (get_users_info_dict_outcome users force_refresh w)
      as [[m Hm]|[key Hk]].
    - congruence.
    - destruct (misses users force_refresh w) as [|x ms] eqn:Hms.
      + destruct (get_users_info_dict_cached users force_refresh w Hms)
          as (c & ev1 & _ & Hrun). by rewrite Hrun in Hk.
      + destruct (get_users_info_dict_ok users force_refresh w)
          as (c & ev1 & seen & _ & _ & Hrun); [by rewrite Hms|done|].
        by rewrite Hrun in Hk. }
  destruct (get_users_info_dict_bad users force_refresh w Hbad)
    as (c & ev1 & key & k & (_ & _ & Hs & Hd) & _ & ->).
  destruct (cache_read_quiet users force_refresh w) as (_ & Hs1 & Hd1 & _).
  destruct (no_lookups_quiet
              (take k (chunk (missed_ids users force_refresh w) 100)))
    as (_ & Hs2 & Hd2).
  unfold events_of, set_manys, db_updates in *. cbn [snd].
  by rewrite !omap_app, Hs, Hs1, Hs2, Hd, Hd1, Hd2.
Qed.

(** X4. The only exception that leaves the bulk lookup is a [KeyError],
    raised for a returned profile whose ID nobody requested. The call is
    then abandoned before anything is stored: no batched cache write, no
    database update, the cached profiles and the [User] rows as before. *)
Theorem malformed_answer_stores_nothing (users : list user)
    (force_refresh : bool) (w : world) (e : exn) :
  result_of (get_users_info users force_refresh w) = Raise e →
  (∃ key, e = KeyError key)
  ∧ (∃ i, i ∈ fetched users force_refresh w
          ∧ reverse_of (data_of users w) !! pretty (info_id i) = None)
  ∧ set_manys (events_of (get_users_info users force_refresh w)) = []
  ∧ db_updates (events_of (get_users_info users force_refresh w)) = []
  ∧ cache_info (world_of (get_users_info users force_refresh w)) = cache_info w
  ∧ users_table (world_of (get_users_info users force_refresh w))
    = users_table w.
Proof.
  intros Hr. apply result_of_get_users_info_Raise in Hr.
  rewrite events_of_get_users_info, world_of_get_users_info.
  destruct (events_of_dict_Raise users force_refresh w e Hr) as [Hs Hd].
  destruct (get_users_info_dict_world users force_refresh w)
    as (c & _ & _ & [(m & Hm & _)|[(m & seen & Hm & _)|(key & k & Hk & Hbad & ->)]]);
    [congruence..|].
  split_and!; [|  |done..].
  - exists key. congruence.
  - apply not_Forall_Exists in Hbad; [|apply _].
    apply Exists_exists in Hbad as (i & Hi & Hn). exists i. split; [done|].
    unfold known in Hn. by apply eq_None_not_Some.
Qed.

Lemma malformed_answer_stores_nothing_witness :
  users_table (world_of
    (get_users_info [sample_user false 1] false
       (with_twitter_api (answering [sample_profile 9]) (sample_world false 1))))
  = users_table
      (with_twitter_api (answering [sample_profile 9]) (sample_world false 1)).
Proof.
  apply (malformed_answer_stores_nothing [sample_user false 1] false
           (with_twitter_api (answering [sample_profile 9])
              (sample_world false 1)) (KeyError "1009")).
  vm_compute. reflexivity.
Defined.

(** X5. Whatever the outcome, the bulk lookup leaves the social-auth table
    and the identity of the [User] rows alone (it only sets flags), and it
    never drops a cache entry: the keys of the cached profiles and the
    cached remote IDs are still there after the call. *)
Theorem get_users_info_keeps (users : list user) (force_refresh : bool)
    (w : world) :
  social_auth_table (world_of (get_users_info users force_refresh w))
  = social_auth_table w
  ∧ row_ids (users_table (world_of (get_users_info users force_refresh w)))
    = row_ids (users_table w)
  ∧ dom (cache_info w)
    ⊆ dom (cache_info (world_of (get_users_info users force_refresh w)))
  ∧ cache_social_id w
    ⊆ cache_social_id (world_of (get_users_info users force_refresh w)).
Proof.
  rewrite world_of_get_users_info.
  destruct (get_users_info_dict_world users force_refresh w)
    as (c & Hc & _ & [(m & _ & _ & ->)|[(m & seen & _ & _ & ->)|(key & k & _ & _ & ->)]]).
  - by split_and!.
  - split_and!; [done| |..|done].
    + unfold row_ids. simpl. by rewrite !set_sm_not_found_ids.
    + simpl. rewrite dom_union. set_solver.
  - by split_and!.
Qed.

(** X6. After a call that returned, a second call without forced refresh
    looks up only the remote IDs of the requested keys that the cache
    still lacks: those the first call neither found in the cache nor
    received a profile for. *)
Theorem second_call_uses_cache (users : list user) (force_refresh : bool)
    (w : world) (vs : list info) (g : list string) (user_id : string) :
  result_of (get_users_info users force_refresh w) = Return vs →
  g ∈ lookups (events_of
         (get_users_info users false
            (world_of (get_users_info users force_refresh w)))) →
  user_id ∈ g →
  ∃ key, data_of users w !! key = Some user_id
         ∧ newly_fetched users force_refresh w !! key = None
         ∧ cache_info w !! key = None.
Proof.
  intros Hr Hg Hid. apply get_users_info_Return in Hr as (m & Hr & _).
  rewrite events_of_get_users_info, world_of_get_users_info in Hg.
  remember (world_of (get_users_info_dict users force_refresh w)) as w' eqn:Hw'.
  destruct (lookups_are_misses users false w' g user_id Hg Hid)
    as (key & Hd & Hh).
  assert ((∀ u, remote_id w' u = remote_id w u)
          ∧ cache_info w' = newly_fetched users force_refresh w ∪ cache_info w)
    as [Hid' Hc].
  { destruct (get_users_info_dict_world users force_refresh w)
      as (c & _ & Hs & [(m' & _ & Hms & Hwd)|[(m' & seen & _ & _ & Hwd)|(key' & k & Hk & _)]]).
    - rewrite Hwd in Hw'. subst w'. split; [apply Hs|].
      by rewrite newly_fetched_no_miss, (left_id_L ∅ (∪)).
    - rewrite Hwd in Hw'. subst w'. split; [|done].
      intros u. rewrite <-(Hs u). by rewrite !remote_id_eq.
    - congruence. }
  assert (data_of users w' = data_of users w) as Hdata.
  { rewrite !data_of_eq. by apply foldl_add_entry_stable. }
  rewrite Hdata in Hd.
  rewrite cache_hits_lookup in Hh; [|done|].
  2:{ rewrite Hdata. apply elem_of_dom. by eexists. }
  rewrite Hc in Hh.
  apply lookup_union_None in Hh as [Hn Hc']. by exists key.
Qed.

Lemma second_call_uses_cache_witness :
  ∃ key,
    data_of (users_table (sample_world false 2))
      (with_twitter_api (directory [sample_profile 1]) (sample_world false 2))
    !! key = Some "1002"
    ∧ newly_fetched (users_table (sample_world false 2)) false
        (with_twitter_api (directory [sample_profile 1]) (sample_world false 2))
      !! key = None
    ∧ cache_info
        (with_twitter_api (directory [sample_profile 1]) (sample_world false 2))
      !! key = None.
Proof.
  apply (second_call_uses_cache (users_table (sample_world false 2)) false
           (with_twitter_api (directory [sample_profile 1])
              (sample_world false 2))
           [sample_profile 1] ["1002"] "1002").
  - vm_compute. reflexivity.
  - refine (bool_decide_eq_true_1 _ _). vm_compute. reflexivity.
  - refine (bool_decide_eq_true_1 _ _). vm_compute. reflexivity.
Defined.

Lemma fetched_from_outage (w : world) (groups : list (list string)) :
  (∀ n req, twitter_api w n req = None) → fetched_from w groups = [].
Proof.
  revert w. induction groups as [|g groups IH]; intros w Hdown; [done|].
  rewrite fetched_from_cons. unfold bulk_of at 1. rewrite Hdown. simpl.
  by apply IH.
Qed.

(** X7. A forced refresh of at most 6000 keyed users while the remote API
    is unreachable ignores the cache: the call returns nothing, caches
    nothing, and flags every user linked to a requested remote ID as not
    found. *)
Theorem forced_refresh_during_outage (users : list user) (w : world) :
  (Z.of_nat (size (data_of users w)) ≤ 6000)%Z →
  (∀ n req, twitter_api w n req = None) →
  result_of (get_users_info users true w) = Return []
  ∧ cache_info (world_of (get_users_info users true w)) = cache_info w
  ∧ ∀ u sa key,
      u ∈ users_table (world_of (get_users_info users true w)) →
      sa ∈ social_auth_table w → sa_user sa = pk u →
      data_of users w !! key = Some (sa_uid sa) →
      sm_not_found u = true.
Proof.
  intros Hcap Hdown.
  assert (consults_cache users true w = false) as Hc.
  { unfold consults_cache. simpl. apply bool_decide_eq_false_2. lia. }
  assert (cache_hits users true w = ∅) as Hh.
  { unfold cache_hits. by rewrite Hc. }
  assert (fetched users true w = []) as Hf by by apply fetched_from_outage.
  assert (newly_fetched users true w = ∅) as Hn.
  { unfold newly_fetched. by rewrite Hf. }
  rewrite get_users_info_eq. unfold result_of at 1, world_of at 1 2.
  cbn [fst snd].
  destruct (get_users_info_dict_world users true w)
    as (c & _ & _ & [(m & Hm & Hms & Hw)|[(m & seen & Hm & Hms & Hw)|(key & k & _ & Hbad & _)]]).
  - pose proof Hm as Hm'.
    apply get_users_info_dict_Return in Hm' as [_ ->].
    fold (result_of (get_users_info_dict users true w)).
    fold (world_of (get_users_info_dict users true w)).
    rewrite Hm, Hw, Hn, Hh, (left_id_L ∅ (∪)), map_to_list_empty.
    split_and!; [done..|].
    intros u sa key _ _ _ Hd.
    assert ((key, sa_uid sa) ∈ misses users true w) as Hin.
    { apply elem_of_misses. by rewrite Hh. }
    rewrite Hms in Hin. by apply elem_of_nil in Hin.
  - pose proof Hm as Hm'.
    apply get_users_info_dict_Return in Hm' as [_ ->].
    fold (result_of (get_users_info_dict users true w)).
    fold (world_of (get_users_info_dict users true w)).
    rewrite Hm, Hw, Hn, Hh, !(left_id_L ∅ (∪)), map_to_list_empty.
    split_and!; [done..|].
    intros u sa key Hu Hsa Hpk Hd. simpl in Hu.
    apply (set_sm_not_found_selected _ _ _ _ _ Hu).
    apply uid_in_true. exists sa. split_and!; [done..|].
    apply elem_of_list_to_set.
    assert (sa_uid sa ∈ mjoin (chunk (missed_ids users true w) 100)) as Hj.
    { rewrite chunk_join by lia. apply list_elem_of_fmap.
      exists (key, sa_uid sa). split; [done|].
      apply elem_of_misses. by rewrite Hh. }
    apply list_elem_of_join in Hj as (g & Hg & Hgs).
    apply list_elem_of_lookup in Hgs as [n Hn'].
    apply (questionable_from_failed _ w n g Hn'); [|done].
    unfold bulk_of. by rewrite Hdown.
  - destruct Hbad. rewrite Hf. constructor.
Qed.

Lemma forced_refresh_during_outage_witness :
  result_of (get_users_info (users_table (sample_world false 2)) true
               (cut_off (first_cached (sample_world false 2))))
  = Return [].
Proof.
  apply (forced_refresh_during_outage (users_table (sample_world false 2))
           (cut_off (first_cached (sample_world false 2)))).
  - apply Z.leb_le. vm_compute. reflexivity.
  - intros n req. reflexivity.
Defined.

Lemma for_each_add_user_none (users : list user) :
  ∀ (d : gmap string string) (w : world),
  (∀ u, u ∈ users → remote_id w u = None) →
  result_of (for_each add_user users d w) = Return d
  ∧ world_of (for_each add_user users d w) = w.
Proof.
  induction users as [|u users IH]; intros d w Hnone; [done|].
  assert (∃ msg, result_of (get_user_id u w)
                 = Raise (SocialMediaException msg)) as [msg Hmsg].
  { pose proof (Hnone u ltac:(left)) as Hu. unfold remote_id in Hu.
    destruct (get_user_id_keeps u w) as (_ & _ & _ & Hraise).
    destruct (result_of (get_user_id u w)) as [s|e]; [done|].
    destruct (Hraise e eq_refl) as [_ [msg ->]]. by exists msg. }
  simpl. rewrite (bind_Return_eq _ _ _ _ _ _ (add_user_skip u d w msg Hmsg)).
  destruct (IH d w) as [Hr Hw].
  { intros u' Hu'. apply Hnone. by right. }
  destruct (for_each add_user users d w) as [[r w'] ev].
  by rewrite prepend_eq.
Qed.

(** X8. When a remote ID can be derived for none of the requested users,
    the call returns the empty collection and changes nothing: no lookup,
    no batched cache write, no database update, the same world. *)
Theorem no_remote_id_no_effect (users : list user) (force_refresh : bool)
    (w : world) :
  (∀ u, u ∈ users → remote_id w u = None) →
  result_of (get_users_info users force_refresh w) = Return []
  ∧ world_of (get_users_info users force_refresh w) = w
  ∧ lookups (events_of (get_users_info users force_refresh w)) = []
  ∧ set_manys (events_of (get_users_info users force_refresh w)) = []
  ∧ db_updates (events_of (get_users_info users force_refresh w)) = [].
Proof.
  intros Hnone.
  destruct (for_each_add_user_none users ∅ w Hnone) as [Hd Hw].
  assert (data_of users w = ∅) as Hdata.
  { unfold data_of. by rewrite Hd. }
  assert (cache_hits users force_refresh w = ∅) as Hh.
  { unfold cache_hits. rewrite Hdata.
    destruct (consults_cache users force_refresh w); [|done].
    apply map_empty. intros k. apply map_lookup_filter_None. right.
    intros i _. simpl. rewrite dom_empty_L. apply not_elem_of_empty. }
  assert (misses users force_refresh w = []) as Hms.
  { unfold misses. by rewrite Hdata, map_to_list_empty. }
  destruct (get_users_info_dict_run users force_refresh w)
    as (c & ev1 & Hrun & (Hl & _ & Hs & Hu) & Hdict).
  rewrite Hrun in Hw. unfold world_of in Hw. simpl in Hw.
  rewrite Hms, prepend_eq, Hh, Hw in Hdict.
  destruct (cache_read_quiet users force_refresh w) as (Hl' & Hs' & Hu' & _).
  rewrite get_users_info_eq. unfold result_of, world_of, events_of.
  cbn [fst snd]. rewrite Hdict. cbn [fst snd].
  unfold lookups, set_manys, db_updates in *.
  rewrite !omap_app, Hl, Hl', Hs, Hs', Hu, Hu'.
  by rewrite map_to_list_empty.
Qed.

Lemma no_remote_id_no_effect_witness :
  result_of (get_users_info [sample_user false 3; sample_user true 3] true
               (sample_world false 2))
  = Return [].
Proof.
  apply (no_remote_id_no_effect [sample_user false 3; sample_user true 3] true
           (sample_world false 2)).
  intros u Hu.
  repeat (apply elem_of_cons in Hu as [->|Hu]; [vm_compute; reflexivity|]).
  by apply elem_of_nil in Hu.
Defined.

(** X9. [reverse_data] inverts [data]: an ID is mapped to a cache key that
    [data] maps back to it, and every ID of [data] has such a key. *)
Theorem reverse_data_inverts_data (data : gmap string string) :
  (∀ user_id key, reverse_of data !! user_id = Some key →
                  data !! key = Some user_id)
  ∧ (∀ key user_id, data !! key = Some user_id →
                    ∃ key', reverse_of data !! user_id = Some key'
                            ∧ data !! key' = Some user_id).
Proof.
  split; [apply reverse_of_lookup|].
  intros key user_id Hd.
  destruct (reverse_of_is_Some data user_id key Hd) as [key' Hr].
  exists key'. split; [done|]. by apply reverse_of_lookup.
Qed.

(** ** The single-user lookup *)

Lemma get_user_info_run (users_show : string → option info) (u : user)
    (w : world) :
  get_user_info users_show u w
  = match cache_info w !! get_user_cache_key u "info" with
    | Some i => (Return i, w, [CacheGet (get_user_cache_key u "info")])
    | None =>
        match get_user_id u w with
        | (Raise e, w1, ev) =>
            (Raise e, w1, CacheGet (get_user_cache_key u "info") :: ev)
        | (Return user_id, w1, ev) =>
            match users_show user_id with
            | Some i =>
                (Return i,
                 with_cache_info
                   (<[get_user_cache_key u "info" := i]> (cache_info w1)) w1,
                 CacheGet (get_user_cache_key u "info")
                 :: ev ++ [LogInfo (msg_hitting_one u user_id)])
            | None =>
                (Raise (SocialMediaException (msg_not_found u user_id)),
                 with_users_table (mark_user u true (users_table w1)) w1,
                 CacheGet (get_user_cache_key u "info")
                 :: ev ++ [LogInfo (msg_hitting_one u user_id)])
            end
        end
    end.
Proof.
  unfold get_user_info, cache_get_info, bind at 1 2 3. simpl.
  destruct (cache_info w !! _) as [i|]; [done|].
  unfold bind at 1. destruct (get_user_id u w) as [[[user_id|e] w1] ev]; [|done].
  unfold log_info, users_show_call, try_except, cache_set_info,
    save_sm_not_found, bind, emit, get_world, put_world, ret, raise. simpl.
  destruct (users_show user_id) as [i|]; simpl; by rewrite ?app_nil_r.
Qed.

Lemma get_user_info_hit (users_show : string → option info) (u : user)
    (w : world) (i : info) :
  cache_info w !! get_user_cache_key u "info" = Some i →
  get_user_info users_show u w
  = (Return i, w, [CacheGet (get_user_cache_key u "info")]).
Proof. intros H. by rewrite get_user_info_run, H. Qed.

Lemma get_user_info_Return_cached (users_show : string → option info)
    (u : user) (w : world) (i : info) :
  result_of (get_user_info users_show u w) = Return i →
  cache_info (world_of (get_user_info users_show u w))
  !! get_user_cache_key u "info" = Some i.
Proof.
  unfold result_of, world_of. rewrite get_user_info_run.
  destruct (cache_info w !! _) as [i0|] eqn:Hi; simpl.
  { by intros [= ->]. }
  destruct (get_user_id u w) as [[[user_id|e] w1] ev]; [|done].
  destruct (users_show user_id) as [i0|]; [|done]. simpl.
  intros [= ->]. by rewrite lookup_insert_eq.
Qed.

(** X10. Once [get_user_info] has returned a profile, any later call made
    while the cache keeps its profiles returns the same profile from the
    cache, whatever the remote API would answer, and changes nothing. *)
Theorem get_user_info_answers_from_cache (users_show users_show' : string → option info)
    (u : user) (w w2 : world) (i : info) :
  result_of (get_user_info users_show u w) = Return i →
  cache_info w2 = cache_info (world_of (get_user_info users_show u w)) →
  get_user_info users_show' u w2
  = (Return i, w2, [CacheGet (get_user_cache_key u "info")]).
Proof.
  intros Hr Hc. apply get_user_info_hit. rewrite Hc.
  by apply get_user_info_Return_cached.
Qed.

Lemma get_user_info_answers_from_cache_witness :
  get_user_info (λ _, None) (sample_user false 1)
    (world_of (get_user_info (λ _, Some (sample_profile 1))
                 (sample_user false 1) (sample_world false 1)))
  = (Return (sample_profile 1),
     world_of (get_user_info (λ _, Some (sample_profile 1))
                 (sample_user false 1) (sample_world false 1)),
     [CacheGet (get_user_cache_key (sample_user false 1) "info")]).
Proof.
  apply (get_user_info_answers_from_cache (λ _, Some (sample_profile 1))
           (λ _, None) (sample_user false 1) (sample_world false 1)).
  - vm_compute. reflexivity.
  - reflexivity.
Defined.

Lemma mark_user_elem (u r : user) (flag : bool) (table : list user) :
  r ∈ mark_user u flag table →
  ∃ r0, r0 ∈ table ∧ pk r = pk r0 ∧ username r = username r0
        ∧ (pk r0 = pk u → sm_not_found r = flag)
        ∧ (pk r0 ≠ pk u → r = r0).
Proof.
  unfold mark_user. intros Hr. apply list_elem_of_fmap in Hr as (r0 & -> & Hr0).
  exists r0. destruct (decide (pk r0 = pk u)); by split_and!.
Qed.

(** X11. When the profile is not cached and [users.show] fails with the
    transport error, [get_user_info] raises [SocialMediaException] and
    persists [sm_not_found = True] on the user's row, so that the admin
    column [found_on_twitter] turns false; the other rows and the cached
    profiles are untouched. *)
Theorem get_user_info_marks_not_found (users_show : string → option info)
    (u : user) (w : world) (user_id : string) :
  cache_info w !! get_user_cache_key u "info" = None →
  remote_id w u = Some user_id →
  users_show user_id = None →
  result_of (get_user_info users_show u w)
  = Raise (SocialMediaException (msg_not_found u user_id))
  ∧ users_table (world_of (get_user_info users_show u w))
    = mark_user u true (users_table w)
  ∧ cache_info (world_of (get_user_info users_show u w)) = cache_info w
  ∧ ∀ r, r ∈ users_table (world_of (get_user_info users_show u w)) →
         (pk r = pk u → found_on_twitter r = false)
         ∧ (pk r ≠ pk u → r ∈ users_table w).
Proof.
  intros Hmiss Hid Hshow.
  pose proof (get_user_id_keeps u w) as (Hci & Hut & _).
  unfold remote_id in Hid. unfold result_of, world_of in *.
  rewrite get_user_info_run, Hmiss.
  destruct (get_user_id u w) as [[[s|e] w1] ev]; [|done].
  simpl in *. injection Hid as ->. rewrite Hshow. simpl.
  rewrite Hut, Hci. split_and!; [done..|].
  intros r Hr. apply mark_user_elem in Hr
    as (r0 & Hr0 & Hpk & _ & Hflag & Hother).
  split.
  - intros Hu. unfold found_on_twitter. rewrite Hflag; [done|congruence].
  - intros Hu. rewrite Hother; [done|congruence].
Qed.

Lemma get_user_info_marks_not_found_witness :
  users_table (world_of (get_user_info (λ _, None) (sample_user false 1)
                           (sample_world false 2)))
  = mark_user (sample_user false 1) true (users_table (sample_world false 2)).
Proof.
  apply (get_user_info_marks_not_found (λ _, None) (sample_user false 1)
           (sample_world false 2) "1001").
  - vm_compute. reflexivity.
  - vm_compute. reflexivity.
  - reflexivity.
Defined.

(** X12. [get_user_info] lets no transport error out: it returns a profile
    or raises [SocialMediaException]. It never clears a not-found flag,
    and it leaves the identity of the [User] rows and the social-auth
    table alone. *)
Theorem get_user_info_outcome (users_show : string → option info) (u : user)
    (w : world) :
  ((∃ i, result_of (get_user_info users_show u w) = Return i)
   ∨ ∃ msg, result_of (get_user_info users_show u w)
            = Raise (SocialMediaException msg))
  ∧ social_auth_table (world_of (get_user_info users_show u w))
    = social_auth_table w
  ∧ Forall2 (λ r r', pk r' = pk r ∧ username r' = username r
                     ∧ (sm_not_found r = true → sm_not_found r' = true))
      (users_table w) (users_table (world_of (get_user_info users_show u w))).
Proof.
  assert (∀ t : list user,
    Forall2 (λ r r', pk r' = pk r ∧ username r' = username r
                     ∧ (sm_not_found r = true → sm_not_found r' = true)) t t)
    as Hrefl.
  { intros t. apply Forall_Forall2_diag, Forall_forall. by intros r _. }
  pose proof (get_user_id_keeps u w) as (_ & Hut & Hsa & Hraise).
  unfold result_of, world_of in *. rewrite get_user_info_run.
  destruct (cache_info w !! _) as [i|]; simpl.
  { split_and!; [left; by eexists|done|apply Hrefl]. }
  destruct (get_user_id u w) as [[[s|e] w1] ev]; simpl in *.
  - destruct (users_show s) as [i|]; simpl.
    + rewrite Hut. split_and!; [left; by eexists|done|apply Hrefl].
    + rewrite Hut. split_and!; [right; by eexists|done|].
      unfold mark_user. apply Forall2_fmap_r, Forall_Forall2_diag, Forall_forall.
      intros r _. unfold compose.
      destruct (decide (pk r = pk u)); simpl; auto.
  - destruct (Hraise e eq_refl) as [-> [msg ->]].
    split_and!; [right; by eexists|done|apply Hrefl].
Qed.

(** X13. A user for whom no remote ID can be derived is not marked: when
    the profile is not cached and [get_user_id] raises, [get_user_info]
    raises the same exception and the world is unchanged. *)
Theorem get_user_info_not_connected (users_show : string → option info)
    (u : user) (w : world) (e : exn) :
  cache_info w !! get_user_cache_key u "info" = None →
  result_of (get_user_id u w) = Raise e →
  result_of (get_user_info users_show u w) = Raise e
  ∧ world_of (get_user_info users_show u w) = w.
Proof.
  intros Hmiss Hr.
  destruct (get_user_id_keeps u w) as (_ & _ & _ & Hraise).
  destruct (Hraise e Hr) as [Hw _]. revert Hr Hw.
  unfold result_of, world_of. rewrite get_user_info_run, Hmiss.
  destruct (get_user_id u w) as [[[s|e'] w1] ev]; [done|]. simpl.
  by intros [= ->] ->.
Qed.

Lemma get_user_info_not_connected_witness :
  result_of (get_user_info (λ _, None) (sample_user false 3)
               (sample_world false 2))
  = Raise (SocialMediaException (msg_not_authenticated (sample_user false 3)))
  ∧ world_of (get_user_info (λ _, None) (sample_user false 3)
                (sample_world false 2))
    = sample_world false 2.
Proof.
  apply get_user_info_not_connected.
  - vm_compute. reflexivity.
  - vm_compute. reflexivity.
Defined.

(** X14. The accessors read one profile: after [get_user_info] has
    returned a profile, [get_full_name], [get_bio] and [get_avatar_url]
    return its name, its description and its enlarged avatar URL from the
    cache, whatever the remote API would answer. *)
Theorem accessors_read_the_cached_profile
    (users_show users_show' : string → option info) (u : user) (w : world)
    (i : info) :
  result_of (get_user_info users_show u w) = Return i →
  result_of (get_full_name users_show' u
               (world_of (get_user_info users_show u w)))
  = Return (info_name i)
  ∧ result_of (get_bio users_show' u
                 (world_of (get_user_info users_show u w)))
    = Return (info_description i)
  ∧ result_of (get_avatar_url users_show' u
                 (world_of (get_user_info users_show u w)))
    = Return (bigger_url (info_profile_image_url i)).
Proof.
  intros Hr.
  pose proof (get_user_info_hit users_show' u _ i
                (get_user_info_Return_cached users_show u w i Hr)) as Hrun.
  unfold get_full_name, get_bio, get_avatar_url.
  by rewrite !(bind_Return_eq _ _ _ _ _ _ Hrun).
Qed.

Lemma accessors_read_the_cached_profile_witness :
  result_of (get_full_name (λ _, None) (sample_user false 1)
               (world_of (get_user_info (λ _, Some (sample_profile 1))
                            (sample_user false 1) (sample_world false 1))))
  = Return (info_name (sample_profile 1)).
Proof.
  apply (accessors_read_the_cached_profile (λ _, Some (sample_profile 1))
           (λ _, None) (sample_user false 1) (sample_world false 1)
           (sample_profile 1)).
  vm_compute. reflexivity.
Defined.

(** ** The avatar URL *)

Lemma string_app_nil_l (s : string) : "" +:+ s = s.
Proof. reflexivity. Qed.

Lemma no_dot_app (a b : string) : no_dot (a +:+ b) = no_dot a && no_dot b.
Proof.
  induction a as [|c a IH]; [done|].
  rewrite string_app_cons. simpl. rewrite IH. by rewrite andb_assoc.
Qed.

Lemma is_ext_no_dot (e : string) : is_ext e = true → no_dot e = false.
Proof.
  destruct e as [|c e]; [done|]. simpl. intros H.
  apply andb_true_iff in H as [-> _]. done.
Qed.

(** An extension starts at the last dot: a string ends with one extension
    at most. *)
Lemma ext_split_unique (a b e e' : string) :
  is_ext e = true → is_ext e' = true → a +:+ e = b +:+ e' → a = b ∧ e = e'.
Proof.
  intros He He'. revert b. induction a as [|c a IH]; intros [|d b] H.
  - done.
  - rewrite string_app_nil_l, string_app_cons in H. subst e.
    simpl in He. apply andb_true_iff in He as [_ He].
    rewrite no_dot_app, (is_ext_no_dot e' He'), andb_false_r in He. done.
  - rewrite string_app_nil_l, string_app_cons in H. subst e'.
    simpl in He'. apply andb_true_iff in He' as [_ He'].
    rewrite no_dot_app, (is_ext_no_dot e He), andb_false_r in He'. done.
  - rewrite !string_app_cons in H. injection H as -> H.
    by destruct (IH b H) as [-> ->].
Qed.

Lemma strip_prefix_app (p s : string) : strip_prefix p (p +:+ s) = Some s.
Proof.
  induction p as [|c p IH]; [done|].
  rewrite string_app_cons. simpl. by rewrite Ascii.eqb_refl.
Qed.

Lemma strip_prefix_Some (p s r : string) :
  strip_prefix p s = Some r → s = p +:+ r.
Proof.
  revert s. induction p as [|c p IH]; intros s H.
  - by injection H as ->.
  - destruct s as [|d s]; [done|]. simpl in H.
    destruct (Ascii.eqb c d) eqn:Hcd; [|done].
    apply Ascii.eqb_eq in Hcd as ->. rewrite string_app_cons.
    f_equal. by apply IH.
Qed.

Lemma match_suffix_Some (alts : list string) (rest ext : string) :
  match_suffix alts rest = Some ext →
  is_ext ext = true ∧ ∃ alt, alt ∈ alts ∧ rest = alt +:+ ext.
Proof.
  induction alts as [|alt alts IH]; [done|]. simpl.
  destruct (strip_prefix alt rest) as [e|] eqn:Hs.
  - destruct (is_ext e) eqn:He.
    + intros [= <-]. split; [done|]. exists alt. split; [left|].
      by apply strip_prefix_Some.
    + intros H. destruct (IH H) as (? & alt' & ? & ?).
      split; [done|]. exists alt'. split; [by right|done].
  - intros H. destruct (IH H) as (? & alt' & ? & ?).
    split; [done|]. exists alt'. split; [by right|done].
Qed.

Lemma match_suffix_complete (alts : list string) (alt ext : string) :
  alt ∈ alts → is_ext ext = true →
  match_suffix alts (alt +:+ ext) = Some ext.
Proof.
  intros Hin He. induction alts as [|alt' alts IH].
  { by apply elem_of_nil in Hin. }
  simpl. destruct (strip_prefix alt' (alt +:+ ext)) as [e|] eqn:Hs.
  - destruct (is_ext e) eqn:He'.
    + apply strip_prefix_Some in Hs.
      by destruct (ext_split_unique alt alt' ext e He He' Hs) as [_ ->].
    + apply IH. apply elem_of_cons in Hin as [->|Hin]; [|done].
      rewrite strip_prefix_app in Hs. injection Hs as <-. congruence.
  - apply IH. apply elem_of_cons in Hin as [->|Hin]; [|done].
    by rewrite strip_prefix_app in Hs.
Qed.

(** What a match says about the URL. *)
Lemma avatar_match_Some (url path ext : string) :
  avatar_match url = Some (path, ext) →
  no_newline path = true ∧ is_ext ext = true
  ∧ ∃ alt, alt ∈ size_suffixes ∧ url = path +:+ alt +:+ ext.
Proof.
  revert path. induction url as [|c url IH]; intros path.
  - simpl. intros H. done.
  - cbn [avatar_match].
    destruct (match_suffix size_suffixes (String c url)) as [e|] eqn:Hm.
    + intros [= <- <-]. apply match_suffix_Some in Hm as (He & alt & Hin & ->).
      split; [done|]. split; [done|]. by exists alt.
    + destruct (Ascii.eqb c "010") eqn:Hc; [done|].
      destruct (avatar_match url) as [[p e]|]; [|done].
      intros [= <- <-]. destruct (IH p eq_refl) as (Hp & He & alt & Hin & ->).
      split; [simpl; by rewrite Hc|]. split; [done|].
      exists alt. split; [done|]. by rewrite string_app_cons.
Qed.

Lemma avatar_match_unfold (url : string) :
  avatar_match url
  = match match_suffix size_suffixes url with
    | Some ext => Some ("", ext)
    | None =>
        match url with
        | EmptyString => None
        | String c url' =>
            if Ascii.eqb c "010"%char then None
            else match avatar_match url' with
                 | Some (path, ext) => Some (String c path, ext)
                 | None => None
                 end
        end
    end.
Proof. by destruct url. Qed.

(** No size suffix ends with a longer string that ends with a named one. *)
Lemma size_suffix_not_nested (alt' alt p : string) (c : ascii) :
  alt' ∈ size_suffixes → alt ∈ named_sizes → alt' ≠ String c p +:+ alt.
Proof.
  intros Hin' Hin H. pose proof (f_equal String.length H) as Hlen.
  rewrite string_app_length in Hlen. simpl in Hlen.
  unfold size_suffixes, named_sizes in *.
  repeat (apply elem_of_cons in Hin' as [->|Hin']);
    [..|by apply elem_of_nil in Hin'];
    repeat (apply elem_of_cons in Hin as [->|Hin]);
    try (by apply elem_of_nil in Hin);
    simpl in Hlen; try lia;
    destruct p as [|d [|d' p]]; simpl in Hlen; try lia; discriminate.
Qed.

Lemma avatar_match_split (path alt ext : string) :
  alt ∈ named_sizes → no_newline path = true → is_ext ext = true →
  avatar_match (path +:+ alt +:+ ext) = Some (path, ext).
Proof.
  intros Hin Hp He. induction path as [|c path IH].
  - rewrite string_app_nil_l, avatar_match_unfold, match_suffix_complete;
      [done| |done].
    unfold named_sizes, size_suffixes in *.
    repeat (apply elem_of_cons in Hin as [->|Hin]);
      [left|right; left|do 2 right; left|by apply elem_of_nil in Hin].
  - simpl in Hp. apply andb_true_iff in Hp as [Hc Hp].
    apply negb_true_iff in Hc.
    rewrite avatar_match_unfold.
    destruct (match_suffix size_suffixes (String c path +:+ alt +:+ ext))
      as [e|] eqn:Hm.
    + apply match_suffix_Some in Hm as (He' & alt' & Hin' & Heq).
      rewrite <-string_app_assoc in Heq.
      destruct (ext_split_unique _ _ _ _ He He' Heq) as [Halt _].
      by destruct (size_suffix_not_nested alt' alt path c Hin' Hin).
    + rewrite string_app_cons, Hc, (IH Hp). done.
Qed.

(** X15. Enlarging an avatar URL twice is enlarging it once. *)
Theorem bigger_url_idempotent (url : string) :
  bigger_url (bigger_url url) = bigger_url url.
Proof.
  unfold bigger_url at 2 3.
  destruct (avatar_match url) as [[path ext]|] eqn:Hm.
  - apply avatar_match_Some in Hm as (Hp & He & _).
    unfold bigger_url.
    rewrite (avatar_match_split path "_bigger" ext); [done| |done..].
    unfold named_sizes. do 2 right. left.
  - unfold bigger_url. by rewrite Hm.
Qed.

(** X16. An avatar URL that ends with a named size and an extension is
    changed to the bigger size, with its path and its extension kept. *)
Theorem bigger_url_replaces_size (path alt ext : string) :
  alt ∈ named_sizes → no_newline path = true → is_ext ext = true →
  bigger_url (path +:+ alt +:+ ext) = path +:+ "_bigger" +:+ ext.
Proof.
  intros Hin Hp He. unfold bigger_url.
  by rewrite (avatar_match_split path alt ext Hin Hp He).
Qed.

Lemma bigger_url_replaces_size_witness :
  bigger_url ("http://pbs.twimg.com/img/abc" +:+ "_normal" +:+ ".png")
  = "http://pbs.twimg.com/img/abc" +:+ "_bigger" +:+ ".png".
Proof.
  apply bigger_url_replaces_size.
  - refine (bool_decide_eq_true_1 _ _). vm_compute. reflexivity.
  - vm_compute. reflexivity.
  - vm_compute. reflexivity.
Defined.

(** X17. A URL is enlarged only if it has an extension: a URL without a dot
    comes back unchanged, and every change puts [_bigger] in front of the
    extension that follows the last dot. *)
Theorem bigger_url_shape (url : string) :
  (no_dot url = true → bigger_url url = url)
  ∧ (bigger_url url ≠ url →
     ∃ path ext, is_ext ext = true ∧ bigger_url url = path +:+ "_bigger" +:+ ext
                 ∧ ∃ alt, alt ∈ size_suffixes ∧ url = path +:+ alt +:+ ext).
Proof.
  unfold bigger_url.
  destruct (avatar_match url) as [[path ext]|] eqn:Hm; [|by split].
  apply avatar_match_Some in Hm as (Hp & He & alt & Hin & ->). split.
  - rewrite !no_dot_app, (is_ext_no_dot ext He), !andb_false_r. done.
  - intros _. exists path, ext. split; [done|]. split; [done|]. by exists alt.
Qed.

(** ** The admin *)

(** X18. [CategoryAdmin.get_queryset] never filters, and on a GET request
    it stays silent exactly when one category is active: it shows an
    error when no category is active (or none exists) and a warning when
    several are. *)
Theorem category_message_unless_one_active (method : string)
    (qs : list category) :
  (CategoryAdmin.get_queryset method qs).1 = qs
  ∧ ((CategoryAdmin.get_queryset method qs).2 = None ↔
     CategoryAdmin.lower method ≠ "get"
     ∨ length (filter (λ c, cat_active c = true) qs) = 1)
  ∧ (∀ text, (CategoryAdmin.get_queryset method qs).2 = Some (ERROR, text) →
             CategoryAdmin.lower method = "get"
             ∧ length (filter (λ c, cat_active c = true) qs) = 0)
  ∧ (∀ text, (CategoryAdmin.get_queryset method qs).2 = Some (WARNING, text) →
             CategoryAdmin.lower method = "get"
             ∧ 1 < length (filter (λ c, cat_active c = true) qs)).
Proof.
  pose proof (length_filter (λ c, cat_active c = true) qs) as Hle.
  unfold CategoryAdmin.get_queryset.
  destruct (String.eqb (CategoryAdmin.lower method) "get") eqn:Hm; simpl.
  2:{ apply String.eqb_neq in Hm. split_and!; [done| |done..].
      split; [by left|done]. }
  apply String.eqb_eq in Hm.
  destruct (length qs =? 0) eqn:H0; simpl.
  { apply Nat.eqb_eq in H0. split_and!; [done| | |done].
    - split; [done|]. intros [?|?]; [done|lia].
    - intros text _. split; [done|lia]. }
  destruct (length (filter _ qs) =? 0) eqn:H1; simpl.
  { apply Nat.eqb_eq in H1. split_and!; [done| | |done].
    - split; [done|]. intros [?|?]; [done|lia].
    - intros text _. by split. }
  apply Nat.eqb_neq in H1.
  destruct (1 <? length (filter _ qs)) eqn:H2; simpl.
  { apply Nat.ltb_lt in H2. split_and!; [done| |done|].
    - split; [done|]. intros [?|?]; [done|lia].
    - intros text _. by split. }
  apply Nat.ltb_ge in H2. split_and!; [done| |done..].
  split; [|done]. intros _. right. lia.
Qed.

Lemma make_reply_each_counts {S} (make_reply : tweet → S → bool * S)
    (tweets : list tweet) :
  ∀ (successes failures : nat) (db : S),
  (TweetAdmin.make_reply_each make_reply tweets successes failures db).1.1
  + (TweetAdmin.make_reply_each make_reply tweets successes failures db).1.2
  = successes + failures + length tweets.
Proof.
  induction tweets as [|t tweets IH]; intros successes failures db.
  - simpl. lia.
  - simpl. destruct (make_reply t db) as [[|] db']; rewrite IH; lia.
Qed.

(** X19. [make_replies] accounts for every selected tweet: it reports all
    of them converted at once, or, after the one-by-one pass, successes
    and failures that add up to their number. The message is a warning
    exactly when the conversion at once failed. *)
Theorem make_replies_counts_every_tweet {S}
    (bulk_make_replies : list tweet → S → bool * S)
    (make_reply : tweet → S → bool * S) (tweet_qs : list tweet) (db : S) :
  match (TweetAdmin.make_replies bulk_make_replies make_reply tweet_qs db).1 with
  | TweetAdmin.Converted count =>
      (bulk_make_replies tweet_qs db).1 = true ∧ count = length tweet_qs
  | TweetAdmin.Partly successes failures =>
      (bulk_make_replies tweet_qs db).1 = false
      ∧ successes + failures = length tweet_qs
  end
  ∧ (TweetAdmin.message
       (TweetAdmin.make_replies bulk_make_replies make_reply tweet_qs db).1).1
    = (if (bulk_make_replies tweet_qs db).1 then INFO else WARNING).
Proof.
  unfold TweetAdmin.make_replies.
  destruct (bulk_make_replies tweet_qs db) as [[|] db']; [done|].
  pose proof (make_reply_each_counts make_reply tweet_qs 0 0 db') as H.
  destruct (TweetAdmin.make_reply_each make_reply tweet_qs 0 0 db')
    as [[successes failures] db''].
  simpl in *. split; [split; [done|lia]|done].
Qed.

(** X20. The assignment filter has three answers and [Unassigned] is the
    rest: a tweet is listed as unassigned exactly when it is listed
    neither under the visions nor under the replies. Any other value
    leaves the list unfiltered. *)
Theorem unassigned_is_the_rest (qs : list tweet) :
  (∃ visions replies unassigned,
     TweetAssignmentFilter.queryset (Some "visions") qs = Some visions
     ∧ TweetAssignmentFilter.queryset (Some "replies") qs = Some replies
     ∧ TweetAssignmentFilter.queryset (Some "null") qs = Some unassigned
     ∧ ∀ t, t ∈ qs → (t ∈ unassigned ↔ (t ∉ visions) ∧ (t ∉ replies)))
  ∧ ∀ val, val ∉ [Some "visions"; Some "replies"; Some "null"] →
           TweetAssignmentFilter.queryset val qs = None.
Proof.
  split.
  - eexists _, _, _. split_and!; [done..|].
    intros t Ht. rewrite !list_elem_of_filter.
    destruct (user_tweeted_vision t), (app_tweeted_vision t), (tweet_reply t);
      simpl; intuition congruence.
  - intros val Hval. unfold TweetAssignmentFilter.queryset.
    repeat case_decide; [set_solver..|done].
Qed.

(** X21. The reply filter splits the tweets in two, along the column
    [is_a_reply]: [yes] lists the tweets that are replies and [no] the
    others. *)
Theorem reply_filter_follows_is_a_reply (qs : list tweet) :
  ∃ yes no,
    KnownReplyFilter.queryset (Some "yes") qs = Some yes
    ∧ KnownReplyFilter.queryset (Some "no") qs = Some no
    ∧ ∀ t, (t ∈ yes ↔ t ∈ qs ∧ TweetAdmin.is_a_reply t = true)
           ∧ (t ∈ no ↔ t ∈ qs ∧ TweetAdmin.is_a_reply t = false).
Proof.
  eexists _, _. split_and!; [done..|].
  intros t. rewrite !list_elem_of_filter. unfold TweetAdmin.is_a_reply.
  destruct (in_reply_to_id t); simpl; intuition congruence.
Qed.

(** ** The bulk lookup and the single-user lookup share the cache *)

(** The cached profiles after a call that returned. *)
Lemma cache_info_after_Return (users : list user) (force_refresh : bool)
    (w : world) (m : gmap string info) :
  result_of (get_users_info_dict users force_refresh w) = Return m →
  cache_info (world_of (get_users_info_dict users force_refresh w))
  = newly_fetched users force_refresh w ∪ cache_info w.
Proof.
  intros Hr.
  destruct (get_users_info_dict_world users force_refresh w)
    as (c & _ & _ & [(m' & _ & Hms & ->)|[(m' & seen & _ & _ & ->)|(key & k & Hk & _)]]).
  - by rewrite newly_fetched_no_miss, (left_id_L ∅ (∪)).
  - done.
  - congruence.
Qed.

(** X22. Every profile that the bulk lookup returns is afterwards served
    by the single-user lookup of one of the requested users: from the
    cache, whatever the remote API would answer, and with no change. *)
Theorem returned_profiles_serve_single_lookups (users : list user)
    (force_refresh : bool) (w : world) (vs : list info) (i : info)
    (users_show : string → option info) :
  result_of (get_users_info users force_refresh w) = Return vs →
  i ∈ vs →
  ∃ u, u ∈ users
       ∧ get_user_info users_show u
           (world_of (get_users_info users force_refresh w))
         = (Return i, world_of (get_users_info users force_refresh w),
            [CacheGet (get_user_cache_key u "info")]).
Proof.
  intros Hr Hi. apply get_users_info_Return in Hr as (m & Hr & ->).
  rewrite world_of_get_users_info.
  pose proof (cache_info_after_Return users force_refresh w m Hr) as Hc.
  apply get_users_info_dict_Return in Hr as [_ ->].
  apply list_elem_of_fmap in Hi as ([k i'] & -> & Hi).
  apply elem_of_map_to_list in Hi. simpl.
  assert (∃ u, u ∈ users ∧ k = get_user_cache_key u "info") as (u & Hu & ->).
  { apply lookup_union_Some_raw in Hi as [Hi|[_ Hi]].
    - apply newly_fetched_lookup in Hi as (_ & u & Hu & Hk & _). by exists u.
    - unfold cache_hits in Hi.
      destruct (consults_cache users force_refresh w); [|done].
      apply map_lookup_filter_Some in Hi as [_ Hk]. simpl in Hk.
      apply elem_of_dom in Hk as [user_id Hk].
      apply data_of_lookup in Hk as (u & Hu & Hk & _). by exists u. }
  exists u. split; [done|]. apply get_user_info_hit. rewrite Hc.
  apply lookup_union_Some_raw in Hi as [Hi|[Hn Hi]].
  - apply lookup_union_Some_raw. by left.
  - apply lookup_union_Some_raw. right. split; [done|].
    unfold cache_hits in Hi.
    destruct (consults_cache users force_refresh w); [|done].
    by apply map_lookup_filter_Some in Hi as [Hi _].
Qed.

Lemma returned_profiles_serve_single_lookups_witness :
  ∃ u, u ∈ users_table (sample_world false 2)
       ∧ get_user_info (λ _, None) u
           (world_of (get_users_info (users_table (sample_world false 2))
                        false (sample_world false 2)))
         = (Return (sample_profile 2),
            world_of (get_users_info (users_table (sample_world false 2))
                        false (sample_world false 2)),
            [CacheGet (get_user_cache_key u "info")]).
Proof.
  eapply (returned_profiles_serve_single_lookups
            (users_table (sample_world false 2)) false (sample_world false 2)).
  - vm_compute. reflexivity.
  - refine (bool_decide_eq_true_1 _ _). vm_compute. reflexivity.
Defined.

Lemma get_user_info_remote_id (users_show : string → option info) (u : user)
    (w : world) (i : info) :
  result_of (get_user_info users_show u w) = Return i →
  remote_id (world_of (get_user_info users_show u w)) u = remote_id w u.
Proof.
  unfold result_of, world_of. rewrite get_user_info_run.
  destruct (cache_info w !! _) as [i0|]; [done|].
  rewrite !remote_id_eq, get_user_id_run. cbn zeta.
  destruct (cache_social_id w !! _) as [s|] eqn:Hs; simpl.
  { destruct (users_show s); [|done]. simpl. by rewrite Hs. }
  destruct (social_auth_all w u) as [|sa ?] eqn:Hsa; [done|].
  destruct (decide _); [|done]. simpl.
  destruct (users_show (sa_uid sa)); [|done]. simpl.
  by rewrite lookup_insert_eq.
Qed.

Lemma cache_hits_singleton (u : user) (w : world) (i : info)
    (user_id : string) :
  remote_id w u = Some user_id →
  cache_info w !! get_user_cache_key u "info" = Some i →
  cache_hits [u] false w = {[get_user_cache_key u "info" := i]}.
Proof.
  intros Hid Hi. unfold cache_hits, consults_cache. simpl.
  rewrite data_of_eq. simpl. unfold add_entry. rewrite Hid.
  apply map_eq. intros k.
  destruct (decide (k = get_user_cache_key u "info")) as [->|Hne].
  - rewrite lookup_singleton_eq. apply map_lookup_filter_Some. split; [done|].
    simpl. rewrite dom_insert_L. apply elem_of_union_l. by apply elem_of_singleton.
  - rewrite lookup_singleton_ne by done. apply map_lookup_filter_None.
    right. intros x _. simpl.
    rewrite dom_insert_L, dom_empty_L, elem_of_union, elem_of_singleton.
    intros [?|Hk]; [done|by apply elem_of_empty in Hk].
Qed.

(** X23. After the single-user lookup has returned a profile, the bulk
    lookup of that user without forced refresh makes no remote call and
    writes no profile. It returns the profile if a remote ID can be
    derived for the user; a cached profile of a user without one is not
    returned. *)
Theorem single_lookup_serves_bulk_lookup (users_show : string → option info)
    (u : user) (w : world) (i : info) :
  result_of (get_user_info users_show u w) = Return i →
  lookups (events_of (get_users_info [u] false
                        (world_of (get_user_info users_show u w)))) = []
  ∧ set_manys (events_of (get_users_info [u] false
                            (world_of (get_user_info users_show u w)))) = []
  ∧ result_of (get_users_info [u] false
                 (world_of (get_user_info users_show u w)))
    = Return (match remote_id w u with Some _ => [i] | None => [] end).
Proof.
  intros Hr.
  pose proof (get_user_info_remote_id users_show u w i Hr) as Hid.
  pose proof (get_user_info_Return_cached users_show u w i Hr) as Hi.
  remember (world_of (get_user_info users_show u w)) as w' eqn:Hw'.
  assert (all_cached [u] w') as Hall.
  { apply Forall_singleton. intros _. by eexists. }
  pose proof (all_cached_misses [u] w' Hall) as Hms.
  destruct (get_users_info_dict_run [u] false w')
    as (c & ev1 & _ & (Hl & _ & Hs & _) & Hdict).
  rewrite Hms, prepend_eq in Hdict.
  destruct (cache_read_quiet [u] false w') as (Hl' & Hs' & _).
  rewrite get_users_info_eq. unfold result_of at 1, events_of at 1 2.
  cbn [fst snd]. rewrite Hdict. unfold result_of, events_of. cbn [fst snd].
  unfold lookups, set_manys in *. rewrite !omap_app, Hl, Hl', Hs, Hs'.
  split_and!; [done..|]. f_equal. rewrite <-Hid.
  destruct (remote_id w' u) as [user_id|] eqn:Hu.
  - rewrite (cache_hits_singleton u w' i user_id Hu Hi).
    by rewrite map_to_list_singleton.
  - unfold cache_hits, consults_cache. simpl.
    rewrite data_of_eq. simpl. unfold add_entry. rewrite Hu.
    rewrite dom_empty_L.
    replace (filter _ (cache_info w')) with (∅ : gmap string info);
      [by rewrite map_to_list_empty|].
    symmetry. apply map_empty. intros k. apply map_lookup_filter_None. right.
    intros x _. simpl. apply not_elem_of_empty.
Qed.

Lemma single_lookup_serves_bulk_lookup_witness :
  result_of (get_users_info [sample_user false 3] false
               (world_of (get_user_info (λ _, None) (sample_user false 3)
                            (with_cache_info
                               {[get_user_cache_key (sample_user false 3) "info"
                                 := sample_profile 3]}
                               (sample_world false 2)))))
  = Return [].
Proof.
  apply (single_lookup_serves_bulk_lookup (λ _, None) (sample_user false 3)
           (with_cache_info
              {[get_user_cache_key (sample_user false 3) "info"
                := sample_profile 3]}
              (sample_world false 2))
           (sample_profile 3)).
  vm_compute. reflexivity.
Defined.

(** ** What is sent to the remote API *)

(** X24. The remote IDs sent over the lookup calls of one bulk lookup,
    taken together, are the IDs of the requested keys that missed the
    cache, in the order of [data] and each key's ID once: always an
    initial part of them, and all of them when the call returns. *)
Theorem lookups_send_the_missed_ids (users : list user) (force_refresh : bool)
    (w : world) :
  (∃ rest, missed_ids users force_refresh w
           = mjoin (lookups (events_of (get_users_info users force_refresh w)))
             ++ rest)
  ∧ ∀ vs, result_of (get_users_info users force_refresh w) = Return vs →
          mjoin (lookups (events_of (get_users_info users force_refresh w)))
          = missed_ids users force_refresh w.
Proof.
  rewrite events_of_get_users_info.
  destruct (get_users_info_dict_lookups users force_refresh w)
    as (k & -> & _ & Hall).
  pose proof (chunk_join (missed_ids users force_refresh w) 100) as Hj.
  split.
  - exists (mjoin (drop k (chunk (missed_ids users force_refresh w) 100))).
    rewrite <-join_app, take_drop. symmetry. apply Hj. lia.
  - intros vs Hr. apply get_users_info_Return in Hr as (m & Hr & _).
    rewrite take_ge by by apply (Hall m). apply Hj. lia.
Qed.

Lemma lookups_send_the_missed_ids_witness :
  mjoin (lookups (events_of
           (get_users_info (users_table (sample_world false 2)) false
              (first_cached (sample_world false 2)))))
  = missed_ids (users_table (sample_world false 2)) false
      (first_cached (sample_world false 2)).
Proof.
  eapply (lookups_send_the_missed_ids (users_table (sample_world false 2))
            false (first_cached (sample_world false 2))).
  vm_compute. reflexivity.
Defined.
